(** * JSBSim: gravitation, mass balance, propagation state and linearization

    A shallow embedding of the parts of JSBSim whose specified behaviour is
    proved or refuted below:

    - [FGMassBalance.h]: [GetPointmassInertia] and
      [PointMass::CalculateShapeInertia];
    - [FGPropagate.h]: [VehicleState], [GetRadius], [SetVState], [SetPQR],
      [SetUVW];
    - [FGInertial.cpp]: the constructor, [InitModel], [Run], [GetGAccel],
      [GetGravityJ2];
    - [FGStateSpace.cpp]: [numericalJacobian] and [linearize].

    Numbers.  A C++ [double] is modelled by a real number of [R]: the
    arithmetic is the exact one, rounding, infinities and NaN are outside
    the model (module [Binary64] evaluates one numerical scenario on
    binary64 numbers as well).  [unsigned int] indices are numbers of [N],
    [int] loop counters are [nat].

    Effects.  Member functions that assign to members are functions from
    the object to the updated object.  Calls into classes whose code is
    not at hand (the base class [FGModel], the executive [FGFDMExec], the
    components of [FGStateSpace]) are parameters: their results are inputs
    of the function that calls them. *)

From Stdlib Require Import Reals Lra Lia List NArith ZArith Bool.
From Stdlib Require String.
From Stdlib Require PrimFloat.
Import ListNotations.

Open Scope R_scope.

(** ** math/FGColumnVector3 *)

Module FGColumnVector3.

(** [double data[3]]; [v(k)] of the source is [data[k-1]]. *)
Record t : Type := mk { c1 : R; c2 : R; c3 : R }.

(** [v(idx)] read at a run-time index.  The source does no range check:
    an index outside 1..3 reads outside the array, which is [None] here. *)
Definition Entry (v : t) (idx : N) : option R :=
  match idx with
  | 1%N => Some (c1 v)
  | 2%N => Some (c2 v)
  | 3%N => Some (c3 v)
  | _ => None
  end.

(** [v(idx) = val] at a run-time index; [None] is the out-of-bounds
    write of the source. *)
Definition assign (v : t) (idx : N) (val : R) : option t :=
  match idx with
  | 1%N => Some (mk val (c2 v) (c3 v))
  | 2%N => Some (mk (c1 v) val (c3 v))
  | 3%N => Some (mk (c1 v) (c2 v) val)
  | _ => None
  end.

(** [operator*(double, const FGColumnVector3&)]. *)
Definition scale (k : R) (v : t) : t := mk (k * c1 v) (k * c2 v) (k * c3 v).

(** Modelled from the spec: [FGColumnVector3::Magnitude] is defined in
    math/FGColumnVector3.cpp, which is not among the sources; the
    specification reads it as the Euclidean length |p|. *)
Definition Magnitude (v : t) : R :=
  sqrt (c1 v * c1 v + c2 v * c2 v + c3 v * c3 v).

End FGColumnVector3.

(** ** math/FGMatrix33 *)

Module FGMatrix33.

(** Nine doubles; [m(r,c)] of the source is field [m_rc]. *)
Record t : Type := mk {
  m11 : R; m12 : R; m13 : R;
  m21 : R; m22 : R; m23 : R;
  m31 : R; m32 : R; m33 : R
}.

(** [InitMatrix()]: every entry set to zero. *)
Definition InitMatrix : t := mk 0 0 0 0 0 0 0 0 0.

(** [m(1,1) = v], [m(2,2) = v], [m(3,3) = v]. *)
Definition set11 (m : t) (v : R) : t :=
  mk v (m12 m) (m13 m) (m21 m) (m22 m) (m23 m) (m31 m) (m32 m) (m33 m).
Definition set22 (m : t) (v : R) : t :=
  mk (m11 m) (m12 m) (m13 m) (m21 m) v (m23 m) (m31 m) (m32 m) (m33 m).
Definition set33 (m : t) (v : R) : t :=
  mk (m11 m) (m12 m) (m13 m) (m21 m) (m22 m) (m23 m) (m31 m) (m32 m) v.

End FGMatrix33.

(** ** math/FGQuaternion and math/FGLocation *)

Module FGQuaternion.

(** The four entries of the quaternion.  The caches of the source
    (transformation matrices, Euler angles) are functions of the entries
    and are not stored. *)
Record t : Type := mk { q1 : R; q2 : R; q3 : R; q4 : R }.

End FGQuaternion.

Module FGLocation.

(** Modelled from the spec: [FGLocation] is declared in math/FGLocation.h,
    which is not among the sources.  The location is kept as what its
    accessors [GetRadius], [GetLongitude] and [GetLatitude] return. *)
Record t : Type := mk { mRadius : R; mLon : R; mLat : R }.

Definition GetRadius (l : t) : R := mRadius l.
Definition GetLongitude (l : t) : R := mLon l.
Definition GetLatitude (l : t) : R := mLat l.

End FGLocation.

(** ** std::deque and std::vector *)

(** [d.resize(n, val)]: the first [n] elements are kept, and copies of [val]
    are appended while there are fewer than [n]. *)
Definition resize {A : Type} (n : nat) (val : A) (d : list A) : list A :=
  firstn n d ++ repeat val (n - length d).

(** [v[i] = val] on a vector; the source never writes at or past the size
    in the modelled code, and the list is returned as it is there. *)
Fixpoint store {A : Type} (i : nat) (val : A) (v : list A) : list A :=
  match v, i with
  | [], _ => []
  | _ :: v', O => val :: v'
  | a :: v', S i' => a :: store i' val v'
  end.

(** [for (int k = 0; k < n; k++) body(k)], the body as a state
    transformer. *)
Definition for_loop {S : Type} (n : nat) (body : nat -> S -> S) (s : S) : S :=
  fold_left (fun acc k => body k acc) (seq 0 n) s.

(** ** models/FGMassBalance.h *)

Module FGMassBalance.

Module PointMass.

(** [enum esShape]. *)
Inductive esShape : Type :=
  esUnspecified | esTube | esCylinder | esSphere | esBall.

Record t : Type := mk {
  eShapeType : esShape;
  Location : FGColumnVector3.t;
  Weight : R;   (* Weight in pounds. *)
  Radius : R;   (* Radius in feet. *)
  Length : R;   (* Length in feet. *)
  Name : String.string;
  mPMInertia : FGMatrix33.t
}.

Definition with_mPMInertia (pm : t) (m : FGMatrix33.t) : t :=
  mk (eShapeType pm) (Location pm) (Weight pm) (Radius pm) (Length pm)
     (Name pm) m.

Section ShapeInertia.

(** [slugtolb] is a constant of [FGJSBBase], whose header is not among
    the sources. *)
Variable slugtolb : R.

(** The statements under [case esTube:]. *)
Definition stmts_esTube (pm : t) : t :=
  let I := mPMInertia pm in
  let I := FGMatrix33.set11 I ((Weight pm / slugtolb) * Radius pm * Radius pm) in
  let I := FGMatrix33.set22 I ((Weight pm / (slugtolb * 12))
                    * (6 * Radius pm * Radius pm + Length pm * Length pm)) in
  let I := FGMatrix33.set33 I (FGMatrix33.m22 I) in
  with_mPMInertia pm I.

(** The statements under [case esCylinder:]. *)
Definition stmts_esCylinder (pm : t) : t :=
  let I := mPMInertia pm in
  let I := FGMatrix33.set11 I ((Weight pm / (slugtolb * 2)) * Radius pm * Radius pm) in
  let I := FGMatrix33.set22 I ((Weight pm / (slugtolb * 12))
                    * (3 * Radius pm * Radius pm + Length pm * Length pm)) in
  let I := FGMatrix33.set33 I (FGMatrix33.m22 I) in
  with_mPMInertia pm I.

(** The statements under [case esSphere:]; no [break] ends them. *)
Definition stmts_esSphere (pm : t) : t :=
  let I := mPMInertia pm in
  let I := FGMatrix33.set11 I ((Weight pm / (slugtolb * 3)) * Radius pm * Radius pm * 2) in
  let I := FGMatrix33.set22 I (FGMatrix33.m11 I) in
  let I := FGMatrix33.set33 I (FGMatrix33.m11 I) in
  with_mPMInertia pm I.

(** The statements under [case esBall:]. *)
Definition stmts_esBall (pm : t) : t :=
  let I := mPMInertia pm in
  let I := FGMatrix33.set11 I ((Weight pm / (slugtolb * 5)) * Radius pm * Radius pm * 2) in
  let I := FGMatrix33.set22 I (FGMatrix33.m11 I) in
  let I := FGMatrix33.set33 I (FGMatrix33.m11 I) in
  with_mPMInertia pm I.

(** [void CalculateShapeInertia(void)].  The [esSphere] label has no
    [break], so its statements are followed by those of [esBall]. *)
Definition CalculateShapeInertia (pm : t) : t :=
  match eShapeType pm with
  | esTube => stmts_esTube pm
  | esCylinder => stmts_esCylinder pm
  | esSphere => stmts_esBall (stmts_esSphere pm)
  | esBall => stmts_esBall pm
  | esUnspecified => pm
  end.

End ShapeInertia.

End PointMass.

(** The data members of [class FGMassBalance]. *)
Record t : Type := mk {
  Weight : R;
  EmptyWeight : R;
  Mass : R;
  mJ : FGMatrix33.t;
  mJinv : FGMatrix33.t;
  pmJ : FGMatrix33.t;
  baseJ : FGMatrix33.t;
  vXYZcg : FGColumnVector3.t;
  vLastXYZcg : FGColumnVector3.t;
  vDeltaXYZcg : FGColumnVector3.t;
  vDeltaXYZcgBody : FGColumnVector3.t;
  vXYZtank : FGColumnVector3.t;
  vbaseXYZcg : FGColumnVector3.t;
  vPMxyz : FGColumnVector3.t;
  PointMassCG : FGColumnVector3.t;
  PointMasses : list PointMass.t
}.

Section PointmassInertia.

(** [StructuralToBody] is declared in the header and defined in
    FGMassBalance.cpp, which is not among the sources: a [const] member
    function, so a function of the object and of its argument. *)
Variable StructuralToBody : t -> FGColumnVector3.t -> FGColumnVector3.t.

(** [FGMatrix33 GetPointmassInertia(double slugs,
    const FGColumnVector3& r) const]. *)
Definition GetPointmassInertia (this : t) (slugs : R) (r : FGColumnVector3.t)
  : FGMatrix33.t :=
  let v := StructuralToBody this r in
  let sv := FGColumnVector3.scale slugs v in
  let xx := FGColumnVector3.c1 sv * FGColumnVector3.c1 v in
  let yy := FGColumnVector3.c2 sv * FGColumnVector3.c2 v in
  let zz := FGColumnVector3.c3 sv * FGColumnVector3.c3 v in
  let xy := - FGColumnVector3.c1 sv * FGColumnVector3.c2 v in
  let xz := - FGColumnVector3.c1 sv * FGColumnVector3.c3 v in
  let yz := - FGColumnVector3.c2 sv * FGColumnVector3.c3 v in
  FGMatrix33.mk (yy + zz) xy xz
                xy (xx + zz) yz
                xz yz (xx + yy).

End PointmassInertia.

End FGMassBalance.


(** ** models/FGPropagate.h *)

Module FGPropagate.

(** [struct VehicleState]. *)
Record VehicleState : Type := mkVehicleState {
  vLocation : FGLocation.t;
  vUVW : FGColumnVector3.t;
  vPQR : FGColumnVector3.t;
  vPQRi : FGColumnVector3.t;
  qAttitudeLocal : FGQuaternion.t;
  qAttitudeECI : FGQuaternion.t;
  vInertialVelocity : FGColumnVector3.t;
  vInertialPosition : FGColumnVector3.t;
  dqPQRdot : list FGColumnVector3.t;
  dqUVWdot : list FGColumnVector3.t;
  dqInertialVelocity : list FGColumnVector3.t;
  dqQtrndot : list FGQuaternion.t
}.

(** The member functions below read and write the member [VState] only;
    they are functions of that member. *)

(** [double GetRadius(void) const]. *)
Definition GetRadius (VState : VehicleState) : R :=
  if Req_dec_T (FGLocation.GetRadius (vLocation VState)) 0 then 1.0
  else FGLocation.GetRadius (vLocation VState).

(** [double GetLatitude(void) const]. *)
Definition GetLatitude (VState : VehicleState) : R :=
  FGLocation.GetLatitude (vLocation VState).

Section SetVState.

(** The conversion of a [FGColumnVector3] to a [FGQuaternion] that
    [dqQtrndot.resize(4, FGColumnVector3(0.0,0.0,0.0))] goes through; it is
    declared in math/FGQuaternion.h, which is not among the sources. *)
Variable FGQuaternion_of_vector : FGColumnVector3.t -> FGQuaternion.t.

(** [void SetVState(VehicleState* vstate)]: five assignments, then the four
    histories are resized. *)
Definition SetVState (VState vstate : VehicleState) : VehicleState :=
  {| vLocation := vLocation vstate;
     vUVW := vUVW vstate;
     vPQR := vPQR vstate;
     vPQRi := vPQRi VState;
     qAttitudeLocal := qAttitudeLocal vstate;
     qAttitudeECI := qAttitudeECI vstate;
     vInertialVelocity := vInertialVelocity VState;
     vInertialPosition := vInertialPosition VState;
     dqPQRdot := resize 4 (FGColumnVector3.mk 0.0 0.0 0.0) (dqPQRdot VState);
     dqUVWdot := resize 4 (FGColumnVector3.mk 0.0 0.0 0.0) (dqUVWdot VState);
     dqInertialVelocity :=
       resize 4 (FGColumnVector3.mk 0.0 0.0 0.0) (dqInertialVelocity VState);
     dqQtrndot :=
       resize 4 (FGQuaternion_of_vector (FGColumnVector3.mk 0.0 0.0 0.0))
              (dqQtrndot VState) |}.

End SetVState.

(** [VState.vPQR = v] and [VState.vUVW = v]. *)
Definition with_vPQR (VState : VehicleState) (v : FGColumnVector3.t)
  : VehicleState :=
  mkVehicleState (vLocation VState) (vUVW VState) v (vPQRi VState)
    (qAttitudeLocal VState) (qAttitudeECI VState) (vInertialVelocity VState)
    (vInertialPosition VState) (dqPQRdot VState) (dqUVWdot VState)
    (dqInertialVelocity VState) (dqQtrndot VState).

Definition with_vUVW (VState : VehicleState) (v : FGColumnVector3.t)
  : VehicleState :=
  mkVehicleState (vLocation VState) v (vPQR VState) (vPQRi VState)
    (qAttitudeLocal VState) (qAttitudeECI VState) (vInertialVelocity VState)
    (vInertialPosition VState) (dqPQRdot VState) (dqUVWdot VState)
    (dqInertialVelocity VState) (dqQtrndot VState).

(** [void SetPQR(unsigned int i, double val)].  [None] is a write outside
    the three entries of the vector. *)
Definition SetPQR (VState : VehicleState) (i : N) (val : R)
  : option VehicleState :=
  if ((1 <=? i) && (i <=? 3))%N%bool then
    option_map (with_vPQR VState) (FGColumnVector3.assign (vPQR VState) i val)
  else Some VState.

(** [void SetUVW(unsigned int i, double val)]. *)
Definition SetUVW (VState : VehicleState) (i : N) (val : R)
  : option VehicleState :=
  if ((1 <=? i) && (i <=? 3))%N%bool then
    option_map (with_vUVW VState) (FGColumnVector3.assign (vUVW VState) i val)
  else Some VState.

End FGPropagate.

(** ** models/FGInertial.cpp *)

Module FGInertial.

(** The calls that [FGInertial] makes to member functions whose effect is
    outside the object's own data members. *)
Inductive call : Type :=
| call_bind
| call_Debug (from : nat)
| call_RunPreFunctions
| call_RunPostFunctions.

(** The data members of [class FGInertial], and the calls made so far
    (most recent first). *)
Record t : Type := mk {
  RotationRate : R;
  GM : R;
  RadiusReference : R;
  C2_0 : R;
  J2 : R;
  a : R;
  b : R;
  earthPosAngle : R;
  gAccelReference : R;
  gAccel : R;
  calls : list call
}.

(** [FGInertial::FGInertial(FGFDMExec* fgex)], Earth defaults. *)
Definition FGInertial : t :=
  let RotationRate := 0.00007292115 in
  let GM := 14.07644180E15 in
  let RadiusReference := 20925650.00 in
  let C2_0 := -4.84165371736E-04 in
  let J2 := 1.0826266836E-03 in
  let a := 20925646.3255 in
  let b := 20855486.5951 in
  let earthPosAngle := 0.0 in
  let gAccelReference := GM / (RadiusReference * RadiusReference) in
  let gAccel := GM / (RadiusReference * RadiusReference) in
  mk RotationRate GM RadiusReference C2_0 J2 a b earthPosAngle
     gAccelReference gAccel [call_Debug 0; call_bind].

Definition with_earthPosAngle (this : t) (v : R) : t :=
  mk (RotationRate this) (GM this) (RadiusReference this) (C2_0 this)
     (J2 this) (a this) (b this) v (gAccelReference this) (gAccel this)
     (calls this).

Definition with_gAccel (this : t) (v : R) : t :=
  mk (RotationRate this) (GM this) (RadiusReference this) (C2_0 this)
     (J2 this) (a this) (b this) (earthPosAngle this) (gAccelReference this) v
     (calls this).

Definition do_call (this : t) (c : call) : t :=
  mk (RotationRate this) (GM this) (RadiusReference this) (C2_0 this)
     (J2 this) (a this) (b this) (earthPosAngle this) (gAccelReference this)
     (gAccel this) (c :: calls this).

(** [bool FGInertial::InitModel(void)]; [FGModel_InitModel] is what the
    base class's [FGModel::InitModel()] returns. *)
Definition InitModel (FGModel_InitModel : bool) (this : t) : bool * t :=
  if negb FGModel_InitModel then (false, this)
  else
    let this := with_earthPosAngle this 0.0 in
    (true, this).

(** [double FGInertial::GetGAccel(double r) const]. *)
Definition GetGAccel (this : t) (r : R) : R :=
  GM this / (r * r).

(** What one call of [Run] reads from the other objects: the result of the
    base class's [FGModel::Run()], [FDMExec->Holding()], the state of
    [Propagate], and [FDMExec->GetDeltaT()]. *)
Record RunInputs : Type := mkRunInputs {
  FGModel_Run : bool;
  Holding : bool;
  Propagate : FGPropagate.VehicleState;
  GetDeltaT : R
}.

(** [bool FGInertial::Run(void)]. *)
Definition Run (inp : RunInputs) (this : t) : bool * t :=
  if FGModel_Run inp then (true, this)
  else if Holding inp then (false, this)
  else
    let this := do_call this call_RunPreFunctions in
    let r := FGPropagate.GetRadius (Propagate inp) in
    let this := with_gAccel this (GetGAccel this r) in
    let this :=
      with_earthPosAngle this
        (earthPosAngle this + GetDeltaT inp * RotationRate this) in
    let this := do_call this call_RunPostFunctions in
    (false, this).

(** [FGColumnVector3 FGInertial::GetGravityJ2(FGColumnVector3 position)
    const]; [Propagate] is the state of the propagation model that
    [Propagate->GetLatitude()] reads. *)
Definition GetGravityJ2 (this : t) (Propagate : FGPropagate.VehicleState)
  (position : FGColumnVector3.t) : FGColumnVector3.t :=
  let r := FGColumnVector3.Magnitude position in
  let lat := FGPropagate.GetLatitude Propagate in
  let sinLat := sin lat in
  let preCommon := 1.5 * J2 this * (a this / r) * (a this / r) in
  let xy := 1.0 - 5.0 * (sinLat * sinLat) in
  let z := 3.0 - 5.0 * (sinLat * sinLat) in
  let GMOverr2 := GM this / (r * r) in
  FGColumnVector3.mk
    (- GMOverr2 * ((1.0 + (preCommon * xy)) * FGColumnVector3.c1 position / r))
    (- GMOverr2 * ((1.0 + (preCommon * xy)) * FGColumnVector3.c2 position / r))
    (- GMOverr2 * ((1.0 + (preCommon * z)) * FGColumnVector3.c3 position / r)).

(** A call sequence on one [FGInertial] object. *)
Inductive event : Type :=
| ev_InitModel (FGModel_InitModel : bool)
| ev_Run (inp : RunInputs).

Definition step (this : t) (e : event) : t :=
  match e with
  | ev_InitModel ok => snd (InitModel ok this)
  | ev_Run inp => snd (Run inp this)
  end.

Definition run_events (es : list event) (this : t) : t :=
  fold_left step es this.

(** A call of [Run] is skipped when the base class reports nothing to do or
    the executive is holding: the two early returns. *)
Definition skipped (inp : RunInputs) : bool := FGModel_Run inp || Holding inp.

(** The step size that a call reads, if it reads one, is not negative. *)
Definition step_size_nonneg (e : event) : Prop :=
  match e with
  | ev_InitModel _ => True
  | ev_Run inp => skipped inp = false -> 0 <= GetDeltaT inp
  end.

End FGInertial.


(** ** FGStateSpace.cpp *)

Module FGStateSpace.

Section StateSpace.

(** The executive [FGFDMExec& m_fdm] and what is called on it.  Its class is
    not among the sources: the state of the whole simulation is a type
    [FGFDMExec], [Run] is one step of the complete simulation and [Setdt]
    sets the step size. *)
Variable FGFDMExec : Type.
Variable FGFDMExec_Run : FGFDMExec -> FGFDMExec.
Variable Setdt : R -> FGFDMExec -> FGFDMExec.

(** [class ComponentVector], declared in FGStateSpace.h, which is not among
    the sources.  Its components read and write the simulation, so each
    member function used here is a function of the executive: [get(i)],
    [set(i, val)] and the whole-vector [set(vals)]. *)
Record ComponentVector : Type := mkComponentVector {
  getSize : nat;
  get : nat -> FGFDMExec -> R;
  set : nat -> R -> FGFDMExec -> FGFDMExec;
  set_all : list R -> FGFDMExec -> FGFDMExec
}.

(** The members [x], [u] and [y] of [class FGStateSpace]. *)
Record t : Type := mk {
  x : ComponentVector;
  u : ComponentVector;
  y : ComponentVector
}.

(** What the loops of [numericalJacobian] carry: the matrix [J] and the
    executive. *)
Definition loop_state : Type := (list (list R) * FGFDMExec)%type.

(** [x.set(x0); y.set(y0);]. *)
Definition restore (y x : ComponentVector) (y0 x0 : list R)
  (m_fdm : FGFDMExec) : FGFDMExec :=
  set_all y y0 (set_all x x0 m_fdm).

(** The body of the inner loop of [numericalJacobian], at row [i] and
    column [j].  The line it prints on [std::cout] is left out. *)
Definition numericalJacobian_body (y x : ComponentVector) (y0 x0 : list R)
  (h : R) (i j : nat) (st : loop_state) : loop_state :=
  let '(J, m_fdm) := st in
  let m_fdm := restore y x y0 x0 m_fdm in
  let m_fdm := set x j (get x j m_fdm + h) m_fdm in
  let m_fdm := FGFDMExec_Run m_fdm in
  let f1 := get y i m_fdm in

  let m_fdm := restore y x y0 x0 m_fdm in
  let m_fdm := set x j (get x j m_fdm + 2 * h) m_fdm in
  let m_fdm := FGFDMExec_Run m_fdm in
  let f2 := get y i m_fdm in

  let m_fdm := restore y x y0 x0 m_fdm in
  let m_fdm := set x j (get x j m_fdm - h) m_fdm in
  let m_fdm := FGFDMExec_Run m_fdm in
  let fn1 := get y i m_fdm in

  let m_fdm := restore y x y0 x0 m_fdm in
  let m_fdm := set x j (get x j m_fdm - 2 * h) m_fdm in
  let m_fdm := FGFDMExec_Run m_fdm in
  let fn2 := get y i m_fdm in

  let J := store i (store j ((8 * (f1 - fn1) - (f2 - fn2)) / (12 * h))
                          (nth i J [])) J in
  let m_fdm := restore y x y0 x0 m_fdm in
  (J, m_fdm).

(** The body of the outer loop: [J[i].resize(n)], then the inner loop. *)
Definition numericalJacobian_row (y x : ComponentVector) (y0 x0 : list R)
  (h : R) (n i : nat) (st : loop_state) : loop_state :=
  let '(J, m_fdm) := st in
  let J := store i (resize n 0 (nth i J [])) J in
  for_loop n (numericalJacobian_body y x y0 x0 h i) (J, m_fdm).

(** [void FGStateSpace::numericalJacobian(J, y, x, y0, x0, h)]; the matrix
    [J] and the executive are passed in and returned. *)
Definition numericalJacobian (J : list (list R)) (y x : ComponentVector)
  (y0 x0 : list R) (h : R) (m_fdm : FGFDMExec) : loop_state :=
  let n := getSize x in
  let m := getSize y in
  let J := resize m [] J in
  for_loop m (numericalJacobian_row y x y0 x0 h n) (J, m_fdm).

(** What [linearize] returns through its reference parameters, and the
    executive after it. *)
Record linearized : Type := mkLinearized {
  A : list (list R);
  B : list (list R);
  C : list (list R);
  D : list (list R);
  fdm_after : FGFDMExec
}.

(** [void FGStateSpace::linearize(x0, u0, y0, A, B, C, D)]. *)
Definition linearize (this : t) (x0 u0 y0 : list R)
  (A B C D : list (list R)) (m_fdm : FGFDMExec) : linearized :=
  let h := 1e-5 in
  let m_fdm := Setdt h m_fdm in
  let '(A, m_fdm) := numericalJacobian A (x this) (x this) x0 x0 h m_fdm in
  let '(B, m_fdm) := numericalJacobian B (x this) (u this) x0 u0 h m_fdm in
  let '(C, m_fdm) := numericalJacobian C (y this) (x this) y0 x0 h m_fdm in
  let '(D, m_fdm) := numericalJacobian D (y this) (u this) y0 u0 h m_fdm in
  mkLinearized A B C D m_fdm.

(** *** The executive along the loops

    The executive is threaded through the loops independently of the
    matrix.  These functions name the executive at the points the
    statements about [numericalJacobian] refer to. *)

(** One evaluation: the baseline is restored, component [j] of [x] is set
    to [perturb] of its current value, and the simulation runs once. *)
Definition evaluation (y x : ComponentVector) (y0 x0 : list R) (j : nat)
  (perturb : R -> R) (m_fdm : FGFDMExec) : FGFDMExec :=
  let m_fdm := restore y x y0 x0 m_fdm in
  FGFDMExec_Run (set x j (perturb (get x j m_fdm)) m_fdm).

(** The executive after the four evaluations of column [j]: at [+h], [+2h],
    [-h] and [-2h], in this order. *)
Definition after_f1 y x y0 x0 h j m_fdm :=
  evaluation y x y0 x0 j (fun v => v + h) m_fdm.
Definition after_f2 y x y0 x0 h j m_fdm :=
  evaluation y x y0 x0 j (fun v => v + 2 * h) (after_f1 y x y0 x0 h j m_fdm).
Definition after_fn1 y x y0 x0 h j m_fdm :=
  evaluation y x y0 x0 j (fun v => v - h) (after_f2 y x y0 x0 h j m_fdm).
Definition after_fn2 y x y0 x0 h j m_fdm :=
  evaluation y x y0 x0 j (fun v => v - 2 * h) (after_fn1 y x y0 x0 h j m_fdm).

(** The executive after the whole body at column [j], after a row of [n]
    columns, and on entry to the body at row [i], column [j]. *)
Definition fdm_body y x y0 x0 h (j : nat) (m_fdm : FGFDMExec) : FGFDMExec :=
  restore y x y0 x0 (after_fn2 y x y0 x0 h j m_fdm).
Definition fdm_row y x y0 x0 h (n : nat) (m_fdm : FGFDMExec) : FGFDMExec :=
  for_loop n (fdm_body y x y0 x0 h) m_fdm.
Definition fdm_at y x y0 x0 h (n i j : nat) (m_fdm : FGFDMExec) : FGFDMExec :=
  for_loop j (fdm_body y x y0 x0 h)
    (for_loop i (fun _ => fdm_row y x y0 x0 h n) m_fdm).

(** The executive after the whole of [numericalJacobian]. *)
Definition fdm_after_jacobian (y x : ComponentVector) (y0 x0 : list R)
  (h : R) (m_fdm : FGFDMExec) : FGFDMExec :=
  for_loop (getSize y) (fun _ => fdm_row y x y0 x0 h (getSize x)) m_fdm.

(** The value stored at [J[i][j]] when the body is entered with the
    executive [m_fdm]. *)
Definition stencil (y x : ComponentVector) (y0 x0 : list R) (h : R)
  (i j : nat) (m_fdm : FGFDMExec) : R :=
  let f1 := get y i (after_f1 y x y0 x0 h j m_fdm) in
  let f2 := get y i (after_f2 y x y0 x0 h j m_fdm) in
  let fn1 := get y i (after_fn1 y x y0 x0 h j m_fdm) in
  let fn2 := get y i (after_fn2 y x y0 x0 h j m_fdm) in
  (8 * (f1 - fn1) - (f2 - fn2)) / (12 * h).

(** *** Loop invariants *)

(** What holds of the matrix after [k] columns of row [i]. *)
Definition columns_done (y x : ComponentVector) (y0 x0 : list R) (h : R)
  (n i k : nat) (J : list (list R)) (m_fdm : FGFDMExec) (st : loop_state)
  : Prop :=
  snd st = for_loop k (fdm_body y x y0 x0 h) m_fdm /\
  length (fst st) = length J /\
  length (nth i (fst st) []) = n /\
  (forall i', i' <> i -> nth i' (fst st) [] = nth i' J []) /\
  (forall j, (j < k)%nat ->
     nth j (nth i (fst st) []) 0
     = stencil y x y0 x0 h i j (for_loop j (fdm_body y x y0 x0 h) m_fdm)).

(** What holds of the matrix after [k] rows. *)
Definition rows_done (y x : ComponentVector) (y0 x0 : list R) (h : R)
  (n k : nat) (J : list (list R)) (m_fdm : FGFDMExec) (st : loop_state)
  : Prop :=
  snd st = for_loop k (fun _ => fdm_row y x y0 x0 h n) m_fdm /\
  length (fst st) = length J /\
  (forall i j, (i < k)%nat -> (j < n)%nat ->
     nth j (nth i (fst st) []) 0
     = stencil y x y0 x0 h i j (fdm_at y x y0 x0 h n i j m_fdm)).

End StateSpace.

End FGStateSpace.


(** ** The inverse-square law in binary64

    [GetGAccel] once more, on the IEEE 754 binary64 numbers of the kernel
    instead of [R], so that the numerical scenario of the specification can
    also be evaluated with the rounding of a C++ [double]. *)

Module Binary64.

Import PrimFloat.

(** [double FGInertial::GetGAccel(double r) const], [GM] passed in. *)
Definition GetGAccel (GM r : float) : float := (GM / (r * r))%float.

(** The constants of the scenario, and two binary64 numbers that are within
    1% of 32.17. *)
Definition GM_WGS84 : float := 14.07644180E15%float.
Definition RadiusReference_WGS84 : float := 20925650.00%float.
Definition lower_bound : float := 31.875%float.
Definition upper_bound : float := 32.375%float.

End Binary64.

(** ** Concrete inputs

    Objects at which statements are evaluated. *)

(** Two vehicle states that differ in [vPQRi], [vInertialVelocity] and
    [vInertialPosition] only. *)
Definition VState_at_rest : FGPropagate.VehicleState :=
  FGPropagate.mkVehicleState
    (FGLocation.mk 20925650 0 0)
    (FGColumnVector3.mk 0 0 0) (FGColumnVector3.mk 0 0 0)
    (FGColumnVector3.mk 0 0 0)
    (FGQuaternion.mk 1 0 0 0) (FGQuaternion.mk 1 0 0 0)
    (FGColumnVector3.mk 0 0 0) (FGColumnVector3.mk 0 0 0)
    [] [] [] [].

Definition VState_moving : FGPropagate.VehicleState :=
  FGPropagate.mkVehicleState
    (FGLocation.mk 20925650 0 0)
    (FGColumnVector3.mk 0 0 0) (FGColumnVector3.mk 0 0 0)
    (FGColumnVector3.mk 1 0 0)
    (FGQuaternion.mk 1 0 0 0) (FGQuaternion.mk 1 0 0 0)
    (FGColumnVector3.mk 2 0 0) (FGColumnVector3.mk 3 0 0)
    [] [] [] [].


(** A step of 1/120 s, a step of -1 s, a frozen model and a holding
    executive. *)
Definition inputs_stepping : FGInertial.RunInputs :=
  FGInertial.mkRunInputs false false VState_at_rest (1 / 120).

Definition inputs_negative_step : FGInertial.RunInputs :=
  FGInertial.mkRunInputs false false VState_at_rest (-1).

Definition inputs_frozen : FGInertial.RunInputs :=
  FGInertial.mkRunInputs true false VState_at_rest (1 / 120).

Definition inputs_holding : FGInertial.RunInputs :=
  FGInertial.mkRunInputs false true VState_at_rest (1 / 120).

(** A simulation with one number as its whole state, squared by each run,
    and the component vector that reads and writes that number. *)
Definition square_Run (v : R) : R := v * v.

Definition square_Setdt (dt : R) (v : R) : R := v.

Definition square_component : FGStateSpace.ComponentVector R :=
  FGStateSpace.mkComponentVector R 1
    (fun _ v => v) (fun _ val _ => val) (fun vals _ => nth 0 vals 0).

(** ** models/FGMassBalance.h, the point-mass record

    The constructor and the setters of [struct PointMass]. *)

(** [PointMass(double w, FGColumnVector3& vXYZ)].  The constructor does not
    initialise [eShapeType]: the value that member holds afterwards is the
    argument [indeterminate]. *)
Definition PointMass (indeterminate : FGMassBalance.PointMass.esShape)
  (w : R) (vXYZ : FGColumnVector3.t) : FGMassBalance.PointMass.t :=
  {| FGMassBalance.PointMass.eShapeType := indeterminate;
     FGMassBalance.PointMass.Location := vXYZ;
     FGMassBalance.PointMass.Weight := w;
     FGMassBalance.PointMass.Radius := 0.0;
     FGMassBalance.PointMass.Length := 0.0;
     FGMassBalance.PointMass.Name := String.EmptyString;
     FGMassBalance.PointMass.mPMInertia := FGMatrix33.InitMatrix |}.

(** [void SetPointMassShapeType(esShape st)]. *)
Definition SetPointMassShapeType (pm : FGMassBalance.PointMass.t)
  (st : FGMassBalance.PointMass.esShape) : FGMassBalance.PointMass.t :=
  FGMassBalance.PointMass.mk st
    (FGMassBalance.PointMass.Location pm) (FGMassBalance.PointMass.Weight pm)
    (FGMassBalance.PointMass.Radius pm) (FGMassBalance.PointMass.Length pm)
    (FGMassBalance.PointMass.Name pm) (FGMassBalance.PointMass.mPMInertia pm).

(** [void SetPointMassWeight(double wt)]. *)
Definition SetPointMassWeight (pm : FGMassBalance.PointMass.t) (wt : R)
  : FGMassBalance.PointMass.t :=
  FGMassBalance.PointMass.mk (FGMassBalance.PointMass.eShapeType pm)
    (FGMassBalance.PointMass.Location pm) wt
    (FGMassBalance.PointMass.Radius pm) (FGMassBalance.PointMass.Length pm)
    (FGMassBalance.PointMass.Name pm) (FGMassBalance.PointMass.mPMInertia pm).

(** [void SetRadius(double r)]. *)
Definition SetRadius (pm : FGMassBalance.PointMass.t) (r : R)
  : FGMassBalance.PointMass.t :=
  FGMassBalance.PointMass.mk (FGMassBalance.PointMass.eShapeType pm)
    (FGMassBalance.PointMass.Location pm) (FGMassBalance.PointMass.Weight pm)
    r (FGMassBalance.PointMass.Length pm)
    (FGMassBalance.PointMass.Name pm) (FGMassBalance.PointMass.mPMInertia pm).

(** [void SetLength(double l)]. *)
Definition SetLength (pm : FGMassBalance.PointMass.t) (l : R)
  : FGMassBalance.PointMass.t :=
  FGMassBalance.PointMass.mk (FGMassBalance.PointMass.eShapeType pm)
    (FGMassBalance.PointMass.Location pm) (FGMassBalance.PointMass.Weight pm)
    (FGMassBalance.PointMass.Radius pm) l
    (FGMassBalance.PointMass.Name pm) (FGMassBalance.PointMass.mPMInertia pm).

(** A tube of 10 lb, radius 2 ft and length 3 ft, as the loader builds it:
    constructed, then shape, radius and length set. *)
Definition tube_10lb : FGMassBalance.PointMass.t :=
  SetLength
    (SetRadius
       (SetPointMassShapeType
          (PointMass FGMassBalance.PointMass.esUnspecified 10
             (FGColumnVector3.mk 0 0 0))
          FGMassBalance.PointMass.esTube)
       2)
    3.

(** ** models/FGPropagate.h, component getters *)

(** [double GetPQR(int axis) const], [double GetUVW(int idx) const] and
    [double GetPQRi(int axis) const]: the entry of the vector at the index,
    which the vector takes as an [unsigned int]; a negative [int] becomes an
    index far above 3.  [None] is a read outside the vector. *)
Definition GetPQR (VState : FGPropagate.VehicleState) (axis : Z) : option R :=
  if (axis <? 0)%Z then None
  else FGColumnVector3.Entry (FGPropagate.vPQR VState) (Z.to_N axis).

Definition GetUVW (VState : FGPropagate.VehicleState) (idx : Z) : option R :=
  if (idx <? 0)%Z then None
  else FGColumnVector3.Entry (FGPropagate.vUVW VState) (Z.to_N idx).

Definition GetPQRi (VState : FGPropagate.VehicleState) (axis : Z) : option R :=
  if (axis <? 0)%Z then None
  else FGColumnVector3.Entry (FGPropagate.vPQRi VState) (Z.to_N axis).

(** [VehicleState* GetVState(void)]: the state that the returned pointer
    designates. *)
Definition GetVState (VState : FGPropagate.VehicleState)
  : FGPropagate.VehicleState := VState.

(** Two calls in sequence, the second on the state the first returned. *)
Definition and_then {A : Type} (r : option A) (f : A -> option A) : option A :=
  match r with
  | Some a => f a
  | None => None
  end.

(** A vehicle state whose four histories hold four entries each. *)
Definition VState_with_history : FGPropagate.VehicleState :=
  FGPropagate.mkVehicleState
    (FGLocation.mk 20925650 0 0)
    (FGColumnVector3.mk 1 2 3) (FGColumnVector3.mk 4 5 6)
    (FGColumnVector3.mk 7 8 9)
    (FGQuaternion.mk 1 0 0 0) (FGQuaternion.mk 1 0 0 0)
    (FGColumnVector3.mk 2 0 0) (FGColumnVector3.mk 3 0 0)
    (repeat (FGColumnVector3.mk 1 1 1) 4)
    (repeat (FGColumnVector3.mk 2 2 2) 4)
    (repeat (FGColumnVector3.mk 3 3 3) 4)
    (repeat (FGQuaternion.mk 0 1 0 0) 4).

(** ** models/FGInertial.cpp, along a call sequence *)

(** The simulated time that a list of [Run] calls advances: the sum of the
    step sizes of those that are not skipped. *)
Definition elapsed (inps : list FGInertial.RunInputs) : R :=
  fold_right
    (fun inp acc =>
       (if FGInertial.skipped inp then 0 else FGInertial.GetDeltaT inp) + acc)
    0 inps.

(** The calls to the base class's hooks that one call of the model makes,
    in the order they are made. *)
Definition hooks_of (e : FGInertial.event) : list FGInertial.call :=
  match e with
  | FGInertial.ev_InitModel _ => []
  | FGInertial.ev_Run inp =>
      if FGInertial.skipped inp then []
      else [FGInertial.call_RunPreFunctions; FGInertial.call_RunPostFunctions]
  end.

(** [-v], entry by entry. *)
Definition opposite (v : FGColumnVector3.t) : FGColumnVector3.t :=
  FGColumnVector3.mk (- FGColumnVector3.c1 v) (- FGColumnVector3.c2 v)
    (- FGColumnVector3.c3 v).

(** A vehicle state whose stored radius is zero, and a step at it. *)
Definition VState_at_centre : FGPropagate.VehicleState :=
  FGPropagate.mkVehicleState
    (FGLocation.mk 0 0 0)
    (FGColumnVector3.mk 0 0 0) (FGColumnVector3.mk 0 0 0)
    (FGColumnVector3.mk 0 0 0)
    (FGQuaternion.mk 1 0 0 0) (FGQuaternion.mk 1 0 0 0)
    (FGColumnVector3.mk 0 0 0) (FGColumnVector3.mk 0 0 0)
    [] [] [] [].

Definition inputs_at_centre : FGInertial.RunInputs :=
  FGInertial.mkRunInputs false false VState_at_centre (1 / 120).

(** ** FGStateSpace.cpp, the shape of a matrix *)

(** [M] has [m] rows of [n] entries each. *)
Definition has_shape (m n : nat) (M : list (list R)) : Prop :=
  length M = m /\ forall i, (i < m)%nat -> length (nth i M []) = n.

(** ** string_utilities.h

    A [std::string] is the list of its characters.  The functions take
    the string by reference, change it and return the reference: here they
    are functions from the string to the changed string. *)

Module string_utilities.

Import Ascii.

(** The character that [str[str.size()]] reads. *)
Definition nul : ascii := zero.

(** [isspace], [toupper] and [tolower] of the C library in the "C" locale:
    the white-space characters are the space and the five characters from
    horizontal tab (9) to carriage return (13); only the 26 letters of the
    alphabet change case. *)
Definition isspace (c : ascii) : bool :=
  let n := nat_of_ascii c in
  ((n =? 32) || ((9 <=? n) && (n <=? 13)))%nat.

Definition toupper (c : ascii) : ascii :=
  let n := nat_of_ascii c in
  if ((97 <=? n) && (n <=? 122))%nat then ascii_of_nat (n - 32) else c.

Definition tolower (c : ascii) : ascii :=
  let n := nat_of_ascii c in
  if ((65 <=? n) && (n <=? 90))%nat then ascii_of_nat (n + 32) else c.

(** [str.erase(pos, n)], for [pos] within the string. *)
Definition erase (pos n : nat) (str : list ascii) : list ascii :=
  firstn pos str ++ skipn (pos + n) str.

(** [str.find(d)] and [str.find_first_not_of(chars)], from position [pos]
    of the original string on; [None] is [string::npos]. *)
Fixpoint find_from (d : ascii) (str : list ascii) (pos : nat) : option nat :=
  match str with
  | [] => None
  | c :: str' => if eqb c d then Some pos else find_from d str' (S pos)
  end.

Definition find (d : ascii) (str : list ascii) : option nat :=
  find_from d str 0.

Fixpoint find_first_not_of_from (chars str : list ascii) (pos : nat)
  : option nat :=
  match str with
  | [] => None
  | c :: str' =>
      if existsb (eqb c) chars then find_first_not_of_from chars str' (S pos)
      else Some pos
  end.

Definition find_first_not_of (chars str : list ascii) : option nat :=
  find_first_not_of_from chars str 0.

(** [while (cond) body], run for at most [fuel] passes: the state when the
    condition fails, or when the fuel is used up.  Each function below gives
    its loop as many passes as its string has characters, and the
    properties show that the loop has ended by then. *)
Fixpoint while_loop {S : Type} (fuel : nat) (cond : S -> bool)
  (body : S -> S) (s : S) : S :=
  match fuel with
  | O => s
  | Datatypes.S fuel' =>
      if cond s then while_loop fuel' cond body (body s) else s
  end.

(** [std::string& trim_left(std::string& str)]. *)
Definition trim_left_cond (str : list ascii) : bool :=
  negb (length str =? 0)%nat && isspace (nth 0 str nul).

Definition trim_left (str : list ascii) : list ascii :=
  while_loop (length str) trim_left_cond (fun str => erase 0 1 str) str.

(** [std::string& trim_right(std::string& str)]. *)
Definition trim_right_cond (str : list ascii) : bool :=
  negb (length str =? 0)%nat && isspace (nth (length str - 1) str nul).

Definition trim_right (str : list ascii) : list ascii :=
  while_loop (length str) trim_right_cond
    (fun str => erase (length str - 1) 1 str) str.

(** [std::string& trim(std::string& str)]. *)
Definition trim (str : list ascii) : list ascii :=
  if (length str =? 0)%nat then str
  else
    let temp_str := trim_right str in
    trim_left temp_str.

(** [size_t] arithmetic, on 64 bits. *)
Definition size_t_modulus : N := 2 ^ 64.

Definition size_t_add (a b : N) : N := ((a + b) mod size_t_modulus)%N.

Definition size_t_sub (a b : N) : N :=
  ((a + size_t_modulus - b) mod size_t_modulus)%N.

(** [std::string& trim_all_space(std::string& str)]: the loop carries the
    index [i] and the string; one pass is the body followed by [i++]. *)
Definition trim_all_space_cond (st : N * list ascii) : bool :=
  (fst st <? N.of_nat (length (snd st)))%N.

Definition trim_all_space_body (st : N * list ascii) : N * list ascii :=
  let '(i, str) := st in
  let '(i, str) :=
    if isspace (nth (N.to_nat i) str nul)
    then (size_t_sub i 1, erase (N.to_nat i) 1 str)
    else (i, str) in
  (size_t_add i 1, str).

Definition trim_all_space (str : list ascii) : list ascii :=
  snd (while_loop (length str) trim_all_space_cond trim_all_space_body
         (0%N, str)).

(** [std::string& to_upper(std::string& str)] and [to_lower].  A character
    is taken by its value from 0 to 255; those above 127 are left as they
    are, as [toupper] and [tolower] above leave them. *)
Definition to_upper (str : list ascii) : list ascii :=
  for_loop (length str) (fun i str => store i (toupper (nth i str nul)) str)
    str.

Definition to_lower (str : list ascii) : list ascii :=
  for_loop (length str) (fun i str => store i (tolower (nth i str nul)) str)
    str.

(** [bool is_number(const std::string& str)]. *)
Definition number_chars : list ascii :=
  ["+"; "-"; "."; "0"; "1"; "2"; "3"; "4"; "5"; "6"; "7"; "8"; "9"; "E";
   "e"]%char.

Definition is_number (str : list ascii) : bool :=
  match find_first_not_of number_chars str with
  | None => true
  | Some _ => false
  end.

(** [std::vector <std::string> split(std::string str, char d)]: the loop
    carries [str], [index] and [str_array]. *)
Definition split_cond (st : list ascii * option nat * list (list ascii))
  : bool :=
  match snd (fst st) with
  | Some _ => true
  | None => false
  end.

Definition split_body (d : ascii)
  (st : list ascii * option nat * list (list ascii))
  : list ascii * option nat * list (list ascii) :=
  let '(str, index, str_array) := st in
  match index with
  | None => st
  | Some index =>
      let temp := firstn index str in
      let temp := trim temp in
      let str_array :=
        if (0 <? length temp)%nat then str_array ++ [temp] else str_array in
      let str := erase 0 (index + 1) str in
      let index := find d str in
      (str, index, str_array)
  end.

Definition split (str : list ascii) (d : ascii) : list (list ascii) :=
  let str_array := [] in
  let str := trim str in
  let index := find d str in
  let '(str, _, str_array) :=
    while_loop (length str) split_cond (split_body d)
      (str, index, str_array) in
  if (0 <? length str)%nat then
    let temp := trim str in
    if (0 <? length temp)%nat then str_array ++ [temp] else str_array
  else str_array.

(** *** What the loops compute

    The functions that the properties compare the loops with. *)

(** The string without its leading white space. *)
Fixpoint skip_spaces (str : list ascii) : list ascii :=
  match str with
  | [] => []
  | c :: str' => if isspace c then skip_spaces str' else str
  end.

(** The pieces of a string between the occurrences of [d]. *)
Fixpoint pieces (d : ascii) (str : list ascii) : list (list ascii) :=
  match str with
  | [] => [[]]
  | c :: str' =>
      if eqb c d then [] :: pieces d str'
      else
        match pieces d str' with
        | piece :: rest => (c :: piece) :: rest
        | [] => [[c]]
        end
  end.

Definition nonempty (str : list ascii) : bool := (0 <? length str)%nat.

(** The pieces put together again, with [d] between two pieces. *)
Fixpoint join (d : ascii) (ps : list (list ascii)) : list ascii :=
  match ps with
  | [] => []
  | [p] => p
  | p :: ps' => p ++ d :: join d ps'
  end.

(** The characters that [is_number] lets through. *)
Definition number_char (c : ascii) : bool := existsb (eqb c) number_chars.

End string_utilities.

(** ** FGStateSpace.cpp, the stencil around [x0]

    The entry as the specification words it: the four evaluations are made
    with component [j] of [x] set to [x0[j] + h], [x0[j] + 2 h],
    [x0[j] - h] and [x0[j] - 2 h] in the restored baseline, whatever that
    baseline reads at the component.  [numericalJacobian] is compared with
    it below. *)
Definition stencil_at_x0 (FGFDMExec : Type)
  (FGFDMExec_Run : FGFDMExec -> FGFDMExec)
  (y x : FGStateSpace.ComponentVector FGFDMExec) (y0 x0 : list R) (h : R)
  (i j : nat) (m_fdm : FGFDMExec) : R :=
  let baseline := fun s =>
    FGStateSpace.set_all FGFDMExec y y0
      (FGStateSpace.set_all FGFDMExec x x0 s) in
  let run_at := fun (value : R) s =>
    FGFDMExec_Run (FGStateSpace.set FGFDMExec x j value (baseline s)) in
  let s1 := run_at (nth j x0 0 + h) m_fdm in
  let s2 := run_at (nth j x0 0 + 2 * h) s1 in
  let sn1 := run_at (nth j x0 0 - h) s2 in
  let sn2 := run_at (nth j x0 0 - 2 * h) sn1 in
  let f1 := FGStateSpace.get FGFDMExec y i s1 in
  let f2 := FGStateSpace.get FGFDMExec y i s2 in
  let fn1 := FGStateSpace.get FGFDMExec y i sn1 in
  let fn2 := FGStateSpace.get FGFDMExec y i sn2 in
  (8 * (f1 - fn1) - (f2 - fn2)) / (12 * h).

(** * Properties *)

(** ** Containers and loops *)

Lemma resize_length {A : Type} (n : nat) (val : A) (d : list A) :
  length (resize n val d) = n.
Proof.
  unfold resize.
  rewrite length_app, length_firstn, repeat_length.
  lia.
Qed.

Lemma for_loop_0 {S : Type} (body : nat -> S -> S) (s : S) :
  for_loop 0 body s = s.
Proof. reflexivity. Qed.

Lemma for_loop_S {S : Type} (n : nat) (body : nat -> S -> S) (s : S) :
  for_loop (Datatypes.S n) body s = body n (for_loop n body s).
Proof.
  unfold for_loop.
  rewrite seq_S, fold_left_app.
  reflexivity.
Qed.

Lemma store_length {A : Type} (i : nat) (val : A) (v : list A) :
  length (store i val v) = length v.
Proof.
  revert i; induction v as [|a v IH]; intros [|i]; simpl; auto.
Qed.

Lemma nth_store_same {A : Type} (i : nat) (val d : A) (v : list A) :
  (i < length v)%nat -> nth i (store i val v) d = val.
Proof.
  revert i; induction v as [|a v IH]; intros [|i] Hi; simpl in *;
    try lia; auto.
  apply IH; lia.
Qed.

Lemma nth_store_other {A : Type} (i k : nat) (val d : A) (v : list A) :
  i <> k -> nth k (store i val v) d = nth k v d.
Proof.
  revert i k; induction v as [|a v IH]; intros [|i] [|k] Hik; simpl;
    try congruence; auto.
Qed.

(** ** FGMassBalance *)

Section MassBalanceFacts.

Variable slugtolb : R.

(** The statements of [esBall] overwrite what those of [esSphere] wrote:
    the inertia of a sphere is that of the ball statements alone. *)
Lemma stmts_esBall_after_esSphere (pm : FGMassBalance.PointMass.t) :
  FGMassBalance.PointMass.stmts_esBall slugtolb
    (FGMassBalance.PointMass.stmts_esSphere slugtolb pm)
  = FGMassBalance.PointMass.stmts_esBall slugtolb pm.
Proof. reflexivity. Qed.

(** C1.  For a point mass whose shape is [esSphere] (hollow),
    [CalculateShapeInertia] leaves in the three diagonal entries of
    [mPMInertia] the solid-ball value (2/5) (Weight/slugtolb) Radius^2: the
    statements of the sphere case run into those of the ball case, and the
    point mass ends as the ball statements alone would leave it.  This is
    not the hollow-sphere value (2/3) (Weight/slugtolb) Radius^2 unless
    (Weight/slugtolb) Radius^2 is zero. *)
Theorem CalculateShapeInertia_sphere_falls_through :
  forall pm : FGMassBalance.PointMass.t,
    FGMassBalance.PointMass.eShapeType pm = FGMassBalance.PointMass.esSphere ->
    let m := FGMassBalance.PointMass.Weight pm / slugtolb in
    let r := FGMassBalance.PointMass.Radius pm in
    let I := FGMassBalance.PointMass.mPMInertia
               (FGMassBalance.PointMass.CalculateShapeInertia slugtolb pm) in
    FGMatrix33.m11 I = 2 / 5 * m * r ^ 2 /\
    FGMatrix33.m22 I = 2 / 5 * m * r ^ 2 /\
    FGMatrix33.m33 I = 2 / 5 * m * r ^ 2 /\
    FGMassBalance.PointMass.CalculateShapeInertia slugtolb pm
      = FGMassBalance.PointMass.stmts_esBall slugtolb pm /\
    (m * r ^ 2 <> 0 ->
     FGMatrix33.m11 I <> 2 / 3 * m * r ^ 2 /\
     FGMatrix33.m22 I <> 2 / 3 * m * r ^ 2 /\
     FGMatrix33.m33 I <> 2 / 3 * m * r ^ 2).
Proof.
  intros pm Hshape m r I.
  assert (Hball : FGMassBalance.PointMass.CalculateShapeInertia slugtolb pm
                  = FGMassBalance.PointMass.stmts_esBall slugtolb pm).
  { unfold FGMassBalance.PointMass.CalculateShapeInertia.
    rewrite Hshape. apply stmts_esBall_after_esSphere. }
  assert (Hd : FGMatrix33.m11 I = 2 / 5 * m * r ^ 2 /\
               FGMatrix33.m22 I = 2 / 5 * m * r ^ 2 /\
               FGMatrix33.m33 I = 2 / 5 * m * r ^ 2).
  { subst I. rewrite Hball. simpl. subst m r.
    unfold Rdiv. rewrite Rinv_mult. repeat split; ring. }
  destruct Hd as (H1 & H2 & H3).
  repeat split; auto.
  - rewrite H1. intro E. lra.
  - rewrite H2. intro E. lra.
  - rewrite H3. intro E. lra.
Qed.

End MassBalanceFacts.

(** A hollow sphere of 10 lb and radius 2 ft, with slugtolb = 32.174049. *)
Lemma CalculateShapeInertia_sphere_witness :
  let pm := FGMassBalance.PointMass.mk FGMassBalance.PointMass.esSphere
              (FGColumnVector3.mk 0 0 0) 10 2 0 String.EmptyString
              FGMatrix33.InitMatrix in
  FGMatrix33.m11 (FGMassBalance.PointMass.mPMInertia
    (FGMassBalance.PointMass.CalculateShapeInertia 32.174049 pm))
  = 2 / 5 * (10 / 32.174049) * 2 ^ 2.
Proof.
  intro pm.
  exact (proj1 (CalculateShapeInertia_sphere_falls_through 32.174049 pm
                  eq_refl)).
Defined.

Section PointmassInertiaFacts.

Variable StructuralToBody :
  FGMassBalance.t -> FGColumnVector3.t -> FGColumnVector3.t.

(** C6.  [GetPointmassInertia(slugs, r)] converts [r] to the body frame by
    [StructuralToBody] and returns, for the body-frame coordinates
    (v1, v2, v3) so obtained, the matrix whose diagonal entries are [slugs]
    times the sum of the squares of the other two coordinates and whose
    off-diagonal entries are minus [slugs] times the product of the two
    coordinates of the entry. *)
Theorem GetPointmassInertia_point_mass_tensor :
  forall (this : FGMassBalance.t) (slugs : R) (r : FGColumnVector3.t),
    let v := StructuralToBody this r in
    let v1 := FGColumnVector3.c1 v in
    let v2 := FGColumnVector3.c2 v in
    let v3 := FGColumnVector3.c3 v in
    let I := FGMassBalance.GetPointmassInertia StructuralToBody this slugs r in
    FGMatrix33.m11 I = slugs * (v2 ^ 2 + v3 ^ 2) /\
    FGMatrix33.m22 I = slugs * (v1 ^ 2 + v3 ^ 2) /\
    FGMatrix33.m33 I = slugs * (v1 ^ 2 + v2 ^ 2) /\
    FGMatrix33.m12 I = - (slugs * (v1 * v2)) /\
    FGMatrix33.m21 I = - (slugs * (v1 * v2)) /\
    FGMatrix33.m13 I = - (slugs * (v1 * v3)) /\
    FGMatrix33.m31 I = - (slugs * (v1 * v3)) /\
    FGMatrix33.m23 I = - (slugs * (v2 * v3)) /\
    FGMatrix33.m32 I = - (slugs * (v2 * v3)).
Proof.
  intros this slugs r v v1 v2 v3 I.
  subst I v1 v2 v3.
  unfold FGMassBalance.GetPointmassInertia.
  fold v. simpl.
  repeat split; ring.
Qed.

End PointmassInertiaFacts.

(** ** FGPropagate *)

(** C9.  [GetRadius()] never returns zero: it returns the fallback 1.0
    when the radius of the stored location is zero and the stored radius
    otherwise, so what a dependent calculation divides by is not zero. *)
Theorem GetRadius_never_zero :
  forall VState : FGPropagate.VehicleState,
    let stored := FGLocation.GetRadius (FGPropagate.vLocation VState) in
    FGPropagate.GetRadius VState <> 0 /\
    (stored = 0 -> FGPropagate.GetRadius VState = 1.0) /\
    (stored <> 0 -> FGPropagate.GetRadius VState = stored).
Proof.
  intros VState stored.
  unfold FGPropagate.GetRadius. fold stored.
  destruct (Req_dec_T stored 0) as [Hz | Hnz].
  - split; [lra | split].
    + intros _. reflexivity.
    + intros Hne. contradiction.
  - split; [exact Hnz | split].
    + intros Heq. contradiction.
    + intros _. reflexivity.
Qed.

Lemma assign_in_range (v : FGColumnVector3.t) (i : N) (val : R) :
  (1 <= i <= 3)%N ->
  exists v',
    FGColumnVector3.assign v i val = Some v' /\
    FGColumnVector3.Entry v' i = Some val /\
    (forall k : N, k <> i ->
       FGColumnVector3.Entry v' k = FGColumnVector3.Entry v k).
Proof.
  intros Hi.
  assert (Hc : i = 1%N \/ i = 2%N \/ i = 3%N) by lia.
  destruct Hc as [-> | [-> | ->]]; simpl; eexists; repeat split;
    intros k Hk;
    destruct k as [|[[|[]|]|[|[]|]|]]; simpl; congruence.
Qed.

Lemma guard_in_range (i : N) :
  (1 <= i <= 3)%N -> ((1 <=? i) && (i <=? 3))%N%bool = true.
Proof.
  intros [H1 H3].
  apply andb_true_iff; split; apply N.leb_le; assumption.
Qed.

Lemma guard_out_of_range (i : N) :
  (i < 1 \/ 3 < i)%N -> ((1 <=? i) && (i <=? 3))%N%bool = false.
Proof.
  intros H.
  apply andb_false_iff.
  destruct H; [left | right]; apply N.leb_gt; assumption.
Qed.

(** C10.  For an index outside 1..3, [SetPQR(i, v)] and [SetUVW(i, v)]
    return normally, with no write outside the vector, and leave the
    vehicle state as it was.  For an index in 1..3 they return normally, and
    in the state they leave entry [i] of [vPQR] (respectively [vUVW]) is
    [v], the other entries of that vector are the old ones, and every other
    member of the vehicle state is as it was. *)
Theorem SetPQR_SetUVW_index_guard :
  forall (VState : FGPropagate.VehicleState) (i : N) (val : R),
    ((i < 1 \/ 3 < i)%N ->
     FGPropagate.SetPQR VState i val = Some VState /\
     FGPropagate.SetUVW VState i val = Some VState) /\
    ((1 <= i <= 3)%N ->
     (exists VState',
        FGPropagate.SetPQR VState i val = Some VState' /\
        FGColumnVector3.Entry (FGPropagate.vPQR VState') i = Some val /\
        (forall k : N, k <> i ->
           FGColumnVector3.Entry (FGPropagate.vPQR VState') k
           = FGColumnVector3.Entry (FGPropagate.vPQR VState) k) /\
        FGPropagate.vUVW VState' = FGPropagate.vUVW VState /\
        FGPropagate.vLocation VState' = FGPropagate.vLocation VState /\
        FGPropagate.vPQRi VState' = FGPropagate.vPQRi VState /\
        FGPropagate.qAttitudeLocal VState'
          = FGPropagate.qAttitudeLocal VState /\
        FGPropagate.qAttitudeECI VState' = FGPropagate.qAttitudeECI VState /\
        FGPropagate.vInertialVelocity VState'
          = FGPropagate.vInertialVelocity VState /\
        FGPropagate.vInertialPosition VState'
          = FGPropagate.vInertialPosition VState /\
        FGPropagate.dqPQRdot VState' = FGPropagate.dqPQRdot VState /\
        FGPropagate.dqUVWdot VState' = FGPropagate.dqUVWdot VState /\
        FGPropagate.dqInertialVelocity VState'
          = FGPropagate.dqInertialVelocity VState /\
        FGPropagate.dqQtrndot VState' = FGPropagate.dqQtrndot VState) /\
     (exists VState',
        FGPropagate.SetUVW VState i val = Some VState' /\
        FGColumnVector3.Entry (FGPropagate.vUVW VState') i = Some val /\
        (forall k : N, k <> i ->
           FGColumnVector3.Entry (FGPropagate.vUVW VState') k
           = FGColumnVector3.Entry (FGPropagate.vUVW VState) k) /\
        FGPropagate.vPQR VState' = FGPropagate.vPQR VState /\
        FGPropagate.vLocation VState' = FGPropagate.vLocation VState /\
        FGPropagate.vPQRi VState' = FGPropagate.vPQRi VState /\
        FGPropagate.qAttitudeLocal VState'
          = FGPropagate.qAttitudeLocal VState /\
        FGPropagate.qAttitudeECI VState' = FGPropagate.qAttitudeECI VState /\
        FGPropagate.vInertialVelocity VState'
          = FGPropagate.vInertialVelocity VState /\
        FGPropagate.vInertialPosition VState'
          = FGPropagate.vInertialPosition VState /\
        FGPropagate.dqPQRdot VState' = FGPropagate.dqPQRdot VState /\
        FGPropagate.dqUVWdot VState' = FGPropagate.dqUVWdot VState /\
        FGPropagate.dqInertialVelocity VState'
          = FGPropagate.dqInertialVelocity VState /\
        FGPropagate.dqQtrndot VState' = FGPropagate.dqQtrndot VState)).
Proof.
  intros VState i val. split.
  - intros Hout.
    unfold FGPropagate.SetPQR, FGPropagate.SetUVW.
    rewrite (guard_out_of_range i Hout). split; reflexivity.
  - intros Hin.
    unfold FGPropagate.SetPQR, FGPropagate.SetUVW.
    rewrite (guard_in_range i Hin). split.
    + destruct (assign_in_range (FGPropagate.vPQR VState) i val Hin)
        as (v' & Ha & He & Hk).
      exists (FGPropagate.with_vPQR VState v'). rewrite Ha.
      cbn [option_map FGPropagate.with_vPQR FGPropagate.vPQR
           FGPropagate.vUVW FGPropagate.vLocation FGPropagate.vPQRi
           FGPropagate.qAttitudeLocal FGPropagate.qAttitudeECI
           FGPropagate.vInertialVelocity FGPropagate.vInertialPosition
           FGPropagate.dqPQRdot FGPropagate.dqUVWdot
           FGPropagate.dqInertialVelocity FGPropagate.dqQtrndot].
      split; [reflexivity | split; [exact He | split; [exact Hk |]]].
      repeat split.
    + destruct (assign_in_range (FGPropagate.vUVW VState) i val Hin)
        as (v' & Ha & He & Hk).
      exists (FGPropagate.with_vUVW VState v'). rewrite Ha.
      cbn [option_map FGPropagate.with_vUVW FGPropagate.vPQR
           FGPropagate.vUVW FGPropagate.vLocation FGPropagate.vPQRi
           FGPropagate.qAttitudeLocal FGPropagate.qAttitudeECI
           FGPropagate.vInertialVelocity FGPropagate.vInertialPosition
           FGPropagate.dqPQRdot FGPropagate.dqUVWdot
           FGPropagate.dqInertialVelocity FGPropagate.dqQtrndot].
      split; [reflexivity | split; [exact He | split; [exact Hk |]]].
      repeat split.
Qed.

(** Index 7 is ignored; index 2 sets the second entry of [vPQR], and
    leaves its first entry and [vUVW] as they were. *)
Lemma SetPQR_SetUVW_witness :
  FGPropagate.SetPQR VState_at_rest 7 5 = Some VState_at_rest /\
  exists VState',
    FGPropagate.SetPQR VState_at_rest 2 5 = Some VState' /\
    FGColumnVector3.Entry (FGPropagate.vPQR VState') 2 = Some 5 /\
    FGColumnVector3.Entry (FGPropagate.vPQR VState') 1 = Some 0 /\
    FGPropagate.vUVW VState' = FGColumnVector3.mk 0 0 0.
Proof.
  split.
  - apply (proj1 (SetPQR_SetUVW_index_guard VState_at_rest 7 5)).
    right. reflexivity.
  - destruct (proj1 (proj2 (SetPQR_SetUVW_index_guard VState_at_rest 2 5)
                       (conj (N.le_succ_diag_r 1) (N.le_succ_diag_r 2))))
      as (VState' & Hset & Hentry & Hother & Huvw & _).
    exists VState'. split; [exact Hset | split; [exact Hentry | split]].
    + rewrite (Hother 1%N); [reflexivity | discriminate].
    + rewrite Huvw. reflexivity.
Defined.

Section SetVStateFacts.

Variable FGQuaternion_of_vector : FGColumnVector3.t -> FGQuaternion.t.

(** [SetVState] writes the eight vectors and quaternions of the state as
    follows: five are copied from its argument, and [vPQRi],
    [vInertialVelocity] and [vInertialPosition] are not on the left of any
    assignment. *)
Lemma SetVState_unassigned_fields (VState s : FGPropagate.VehicleState) :
  let VState' := FGPropagate.SetVState FGQuaternion_of_vector VState s in
  FGPropagate.vPQRi VState' = FGPropagate.vPQRi VState /\
  FGPropagate.vInertialVelocity VState'
    = FGPropagate.vInertialVelocity VState /\
  FGPropagate.vInertialPosition VState'
    = FGPropagate.vInertialPosition VState.
Proof. repeat split. Qed.

(** C2, as the code has it.  After [SetVState(s)] the location
    [vLocation], the body velocity [vUVW], the angular rate [vPQR] and the
    orientation quaternions [qAttitudeLocal] and [qAttitudeECI] are those of
    [s], and each of the four derivative histories has exactly four
    entries. *)
Theorem SetVState_assigned_fields :
  forall VState s : FGPropagate.VehicleState,
    let VState' := FGPropagate.SetVState FGQuaternion_of_vector VState s in
    (FGPropagate.vLocation VState' = FGPropagate.vLocation s /\
     FGPropagate.vUVW VState' = FGPropagate.vUVW s /\
     FGPropagate.vPQR VState' = FGPropagate.vPQR s /\
     FGPropagate.qAttitudeLocal VState' = FGPropagate.qAttitudeLocal s /\
     FGPropagate.qAttitudeECI VState' = FGPropagate.qAttitudeECI s) /\
    (length (FGPropagate.dqPQRdot VState') = 4%nat /\
     length (FGPropagate.dqUVWdot VState') = 4%nat /\
     length (FGPropagate.dqInertialVelocity VState') = 4%nat /\
     length (FGPropagate.dqQtrndot VState') = 4%nat).
Proof.
  intros VState s VState'. subst VState'.
  unfold FGPropagate.SetVState; simpl.
  repeat split; apply resize_length.
Qed.

End SetVStateFacts.

(** C2, as the claim words it, fails: [SetVState(VState_moving)] on an
    object whose state is [VState_at_rest] leaves [vPQRi],
    [vInertialVelocity] and [vInertialPosition] different from those of its
    argument. *)
Lemma SetVState_not_complete :
  let VState' :=
    FGPropagate.SetVState (fun _ => FGQuaternion.mk 1 0 0 0)
      VState_at_rest VState_moving in
  FGPropagate.vPQRi VState' <> FGPropagate.vPQRi VState_moving /\
  FGPropagate.vInertialVelocity VState'
    <> FGPropagate.vInertialVelocity VState_moving /\
  FGPropagate.vInertialPosition VState'
    <> FGPropagate.vInertialPosition VState_moving.
Proof.
  simpl. repeat split; intro E;
    apply (f_equal FGColumnVector3.c1) in E; simpl in E; lra.
Qed.

(** ** FGInertial *)

(** C5.  [GetGAccel(r)] is GM / r^2, and with the Earth defaults of the
    constructor (GM = 14.07644180e15) at r = 20925650.00 ft the value is
    within 1% of 32.17 ft/s^2. *)
Theorem GetGAccel_inverse_square :
  (forall (this : FGInertial.t) (r : R),
      FGInertial.GetGAccel this r = FGInertial.GM this / r ^ 2) /\
  FGInertial.GM FGInertial.FGInertial = 14.07644180e15 /\
  Rabs (FGInertial.GetGAccel FGInertial.FGInertial 20925650.00 - 32.17)
    <= 0.01 * 32.17.
Proof.
  split; [| split].
  - intros this r. unfold FGInertial.GetGAccel.
    replace (r ^ 2) with (r * r) by ring. reflexivity.
  - reflexivity.
  - unfold FGInertial.GetGAccel. simpl.
    apply Rabs_le. split; lra.
Qed.

(** The same scenario in binary64: the value lies between 31.875 and
    32.375, which are within 1% of 32.17. *)
Lemma GetGAccel_binary64_surface :
  PrimFloat.ltb Binary64.lower_bound
    (Binary64.GetGAccel Binary64.GM_WGS84 Binary64.RadiusReference_WGS84)
  = true /\
  PrimFloat.ltb
    (Binary64.GetGAccel Binary64.GM_WGS84 Binary64.RadiusReference_WGS84)
    Binary64.upper_bound
  = true.
Proof. split; vm_compute; reflexivity. Qed.

(** C4.  [GetGravityJ2(p)] returns, component by component and with no
    matrix applied to the result, the J2 gravitation at the position [p]
    given in the ECEF frame:
    - (GM / r^2) (1 + 1.5 J2 (a/r)^2 k_i) p_i / r,
    with r = |p|, k_x = k_y = 1 - 5 sin^2 lat, k_z = 3 - 5 sin^2 lat and
    lat the latitude of the current propagation state. *)
Theorem GetGravityJ2_components :
  forall (this : FGInertial.t) (Propagate : FGPropagate.VehicleState)
         (p : FGColumnVector3.t),
    let r := FGColumnVector3.Magnitude p in
    let lat := FGPropagate.GetLatitude Propagate in
    let GM := FGInertial.GM this in
    let J2 := FGInertial.J2 this in
    let a := FGInertial.a this in
    let k_xy := 1 - 5 * (sin lat) ^ 2 in
    let k_z := 3 - 5 * (sin lat) ^ 2 in
    let g := FGInertial.GetGravityJ2 this Propagate p in
    FGColumnVector3.c1 g
      = - (GM / r ^ 2) * (1 + 1.5 * J2 * (a / r) ^ 2 * k_xy)
        * FGColumnVector3.c1 p / r /\
    FGColumnVector3.c2 g
      = - (GM / r ^ 2) * (1 + 1.5 * J2 * (a / r) ^ 2 * k_xy)
        * FGColumnVector3.c2 p / r /\
    FGColumnVector3.c3 g
      = - (GM / r ^ 2) * (1 + 1.5 * J2 * (a / r) ^ 2 * k_z)
        * FGColumnVector3.c3 p / r.
Proof.
  intros this Propagate p r lat GM J2 a k_xy k_z g.
  subst g k_xy k_z. unfold FGInertial.GetGravityJ2.
  fold r lat GM J2 a.
  cbn [FGColumnVector3.c1 FGColumnVector3.c2 FGColumnVector3.c3].
  replace (r ^ 2) with (r * r) by ring.
  replace 1.0 with 1 by lra.
  replace 5.0 with 5 by lra.
  replace 3.0 with 3 by lra.
  unfold Rdiv.
  repeat split; ring.
Qed.

(** C8.  When the base class's [Run] reports nothing to do, or the
    executive is holding, [FGInertial::Run] returns at once: the object is
    as it was, so [gAccel] and [earthPosAngle] are unchanged and neither the
    pre- nor the post-functions were called.  It returns [true] in the first
    case and [false] in the second. *)
Theorem Run_skipped_is_noop :
  forall (inp : FGInertial.RunInputs) (this : FGInertial.t),
    FGInertial.FGModel_Run inp = true \/ FGInertial.Holding inp = true ->
    let result := FGInertial.Run inp this in
    snd result = this /\
    FGInertial.gAccel (snd result) = FGInertial.gAccel this /\
    FGInertial.earthPosAngle (snd result) = FGInertial.earthPosAngle this /\
    FGInertial.calls (snd result) = FGInertial.calls this /\
    fst result = FGInertial.FGModel_Run inp.
Proof.
  intros inp this Hskip result. subst result.
  unfold FGInertial.Run.
  destruct (FGInertial.FGModel_Run inp) eqn:Hbase.
  - simpl. repeat split.
  - destruct Hskip as [Hf | Hh]; [discriminate |].
    rewrite Hh. simpl. repeat split.
Qed.

(** A frozen model, and a holding executive, at the constructed object. *)
Lemma Run_skipped_witness :
  snd (FGInertial.Run inputs_frozen FGInertial.FGInertial)
  = FGInertial.FGInertial /\
  snd (FGInertial.Run inputs_holding FGInertial.FGInertial)
  = FGInertial.FGInertial.
Proof.
  split.
  - exact (proj1 (Run_skipped_is_noop inputs_frozen FGInertial.FGInertial
                    (or_introl eq_refl))).
  - exact (proj1 (Run_skipped_is_noop inputs_holding FGInertial.FGInertial
                    (or_intror eq_refl))).
Defined.

(** *** The rotation angle along a call sequence *)

Lemma run_events_snoc (es : list FGInertial.event) (e : FGInertial.event)
  (this : FGInertial.t) :
  FGInertial.run_events (es ++ [e]) this
  = FGInertial.step (FGInertial.run_events es this) e.
Proof.
  unfold FGInertial.run_events. rewrite fold_left_app. reflexivity.
Qed.

Lemma step_RotationRate (this : FGInertial.t) (e : FGInertial.event) :
  FGInertial.RotationRate (FGInertial.step this e)
  = FGInertial.RotationRate this.
Proof.
  destruct e as [ok | inp]; simpl.
  - unfold FGInertial.InitModel. destruct ok; reflexivity.
  - unfold FGInertial.Run.
    destruct (FGInertial.FGModel_Run inp); [reflexivity |].
    destruct (FGInertial.Holding inp); reflexivity.
Qed.

Lemma run_events_RotationRate (es : list FGInertial.event)
  (this : FGInertial.t) :
  FGInertial.RotationRate (FGInertial.run_events es this)
  = FGInertial.RotationRate this.
Proof.
  induction es as [| e es IH] using rev_ind.
  - reflexivity.
  - rewrite run_events_snoc, step_RotationRate. exact IH.
Qed.

Lemma Run_not_skipped (inp : FGInertial.RunInputs) (this : FGInertial.t) :
  FGInertial.skipped inp = false ->
  FGInertial.earthPosAngle (snd (FGInertial.Run inp this))
  = FGInertial.earthPosAngle this
    + FGInertial.GetDeltaT inp * FGInertial.RotationRate this.
Proof.
  unfold FGInertial.skipped, FGInertial.Run. intros H.
  apply orb_false_iff in H. destruct H as [-> ->]. reflexivity.
Qed.

Lemma Run_skipped (inp : FGInertial.RunInputs) (this : FGInertial.t) :
  FGInertial.skipped inp = true ->
  snd (FGInertial.Run inp this) = this.
Proof.
  unfold FGInertial.skipped, FGInertial.Run. intros H.
  destruct (FGInertial.FGModel_Run inp); [reflexivity |].
  simpl in H. rewrite H. reflexivity.
Qed.

Lemma step_keeps_nonneg (this : FGInertial.t) (e : FGInertial.event) :
  0 < FGInertial.RotationRate this ->
  FGInertial.step_size_nonneg e ->
  0 <= FGInertial.earthPosAngle this ->
  0 <= FGInertial.earthPosAngle (FGInertial.step this e).
Proof.
  intros Hrate He Hpos.
  destruct e as [ok | inp]; simpl in *.
  - unfold FGInertial.InitModel. destruct ok; simpl; lra.
  - destruct (FGInertial.skipped inp) eqn:Hs.
    + rewrite Run_skipped by assumption. assumption.
    + rewrite Run_not_skipped by assumption.
      specialize (He eq_refl). nra.
Qed.

Lemma run_events_nonneg (es : list FGInertial.event) :
  Forall FGInertial.step_size_nonneg es ->
  0 <= FGInertial.earthPosAngle
         (FGInertial.run_events es FGInertial.FGInertial).
Proof.
  induction es as [| e es IH] using rev_ind; intros Hall.
  - simpl. lra.
  - apply Forall_app in Hall. destruct Hall as [Hes He].
    rewrite run_events_snoc.
    apply step_keeps_nonneg.
    + rewrite run_events_RotationRate. simpl. lra.
    + inversion He; assumption.
    + apply IH; assumption.
Qed.

(** C7, as the code has it.  Take any sequence of [InitModel] and [Run]
    calls on a constructed object in which every [Run] that is not skipped
    reads a step size [GetDeltaT()] that is not negative, and any one call
    of the sequence.  [RotationRate] is the positive constant of the
    constructor before and after the call.  A [Run] that is not skipped adds
    exactly GetDeltaT() * RotationRate to [earthPosAngle], a skipped [Run]
    leaves it as it is, so no [Run] decreases it; [InitModel] sets it to
    zero when the base class's [InitModel] succeeds and leaves it otherwise.
    The angle is never negative, and a call after which it is smaller than
    before is an [InitModel]. *)
Theorem earthPosAngle_advance :
  forall (es : list FGInertial.event) (e : FGInertial.event),
    Forall FGInertial.step_size_nonneg (es ++ [e]) ->
    let this := FGInertial.run_events es FGInertial.FGInertial in
    let this' := FGInertial.step this e in
    (FGInertial.RotationRate this = 0.00007292115 /\
     FGInertial.RotationRate this' = FGInertial.RotationRate this /\
     0 < FGInertial.RotationRate this) /\
    match e with
    | FGInertial.ev_Run inp =>
        (FGInertial.skipped inp = false ->
         FGInertial.earthPosAngle this'
         = FGInertial.earthPosAngle this
           + FGInertial.GetDeltaT inp * FGInertial.RotationRate this) /\
        (FGInertial.skipped inp = true ->
         FGInertial.earthPosAngle this' = FGInertial.earthPosAngle this) /\
        FGInertial.earthPosAngle this <= FGInertial.earthPosAngle this'
    | FGInertial.ev_InitModel ok =>
        FGInertial.earthPosAngle this'
        = if ok then 0 else FGInertial.earthPosAngle this
    end /\
    0 <= FGInertial.earthPosAngle this /\
    (FGInertial.earthPosAngle this' < FGInertial.earthPosAngle this ->
     e = FGInertial.ev_InitModel true).
Proof.
  intros es e Hall this this'.
  apply Forall_app in Hall. destruct Hall as [Hes He].
  assert (He' : FGInertial.step_size_nonneg e) by (inversion He; assumption).
  assert (Hrate : FGInertial.RotationRate this = 0.00007292115).
  { subst this. rewrite run_events_RotationRate. reflexivity. }
  assert (Hpos : 0 <= FGInertial.earthPosAngle this).
  { subst this. apply run_events_nonneg. assumption. }
  assert (Hcase :
    match e with
    | FGInertial.ev_Run inp =>
        (FGInertial.skipped inp = false ->
         FGInertial.earthPosAngle this'
         = FGInertial.earthPosAngle this
           + FGInertial.GetDeltaT inp * FGInertial.RotationRate this) /\
        (FGInertial.skipped inp = true ->
         FGInertial.earthPosAngle this' = FGInertial.earthPosAngle this) /\
        FGInertial.earthPosAngle this <= FGInertial.earthPosAngle this'
    | FGInertial.ev_InitModel ok =>
        FGInertial.earthPosAngle this'
        = if ok then 0 else FGInertial.earthPosAngle this
    end).
  { subst this'. destruct e as [ok | inp]; simpl in *.
    - unfold FGInertial.InitModel. destruct ok; simpl; lra.
    - split; [| split].
      + intros Hs. apply Run_not_skipped; assumption.
      + intros Hs. rewrite Run_skipped by assumption. reflexivity.
      + destruct (FGInertial.skipped inp) eqn:Hs.
        * rewrite Run_skipped by reflexivity || assumption. lra.
        * rewrite Run_not_skipped by assumption.
          specialize (He' eq_refl). rewrite Hrate. nra. }
  split; [| split; [| split]].
  - split; [exact Hrate | split].
    + subst this'. apply step_RotationRate.
    + rewrite Hrate. lra.
  - exact Hcase.
  - exact Hpos.
  - intros Hlt. destruct e as [ok | inp].
    + destruct ok; [reflexivity | lra].
    + destruct Hcase as (_ & _ & Hle). lra.
Qed.

(** A step, a reinitialization, then another step. *)
Lemma earthPosAngle_advance_witness :
  FGInertial.earthPosAngle
    (FGInertial.step
       (FGInertial.run_events
          [FGInertial.ev_Run inputs_stepping; FGInertial.ev_InitModel true]
          FGInertial.FGInertial)
       (FGInertial.ev_Run inputs_stepping))
  = FGInertial.earthPosAngle
      (FGInertial.run_events
         [FGInertial.ev_Run inputs_stepping; FGInertial.ev_InitModel true]
         FGInertial.FGInertial)
    + 1 / 120
      * FGInertial.RotationRate
          (FGInertial.run_events
             [FGInertial.ev_Run inputs_stepping; FGInertial.ev_InitModel true]
             FGInertial.FGInertial).
Proof.
  assert (Hall : Forall FGInertial.step_size_nonneg
                   ([FGInertial.ev_Run inputs_stepping;
                     FGInertial.ev_InitModel true]
                    ++ [FGInertial.ev_Run inputs_stepping])).
  { repeat constructor; simpl; lra. }
  exact (proj1 (proj1 (proj2 (earthPosAngle_advance _ _ Hall))) eq_refl).
Defined.

(** C7, as the claim words it, fails: a [Run] that is not skipped and reads
    the step size -1 decreases [earthPosAngle]. *)
Lemma earthPosAngle_decreases_on_negative_step :
  FGInertial.skipped inputs_negative_step = false /\
  FGInertial.earthPosAngle
    (FGInertial.step FGInertial.FGInertial
       (FGInertial.ev_Run inputs_negative_step))
  < FGInertial.earthPosAngle FGInertial.FGInertial.
Proof.
  split; [reflexivity |].
  simpl. lra.
Qed.

(** ** FGStateSpace *)

Section StateSpaceFacts.

Variable FGFDMExec : Type.
Variable FGFDMExec_Run : FGFDMExec -> FGFDMExec.
Variable Setdt : R -> FGFDMExec -> FGFDMExec.

Section Jacobian.

Variables y x : FGStateSpace.ComponentVector FGFDMExec.
Variables y0 x0 : list R.
Variable h : R.

(** One pass through the body stores the stencil value at [J[i][j]] and
    moves the executive by [fdm_body]. *)
Lemma numericalJacobian_body_eq (i j : nat) (J : list (list R))
  (m_fdm : FGFDMExec) :
  FGStateSpace.numericalJacobian_body FGFDMExec FGFDMExec_Run y x y0 x0 h i j
    (J, m_fdm)
  = (store i (store j
               (FGStateSpace.stencil FGFDMExec FGFDMExec_Run y x y0 x0 h i j
                  m_fdm)
               (nth i J [])) J,
     FGStateSpace.fdm_body FGFDMExec FGFDMExec_Run y x y0 x0 h j m_fdm).
Proof. reflexivity. Qed.

Lemma inner_loop_invariant (n i : nat) (J : list (list R))
  (m_fdm : FGFDMExec) :
  (i < length J)%nat ->
  length (nth i J []) = n ->
  forall k, (k <= n)%nat ->
    FGStateSpace.columns_done FGFDMExec FGFDMExec_Run y x y0 x0 h n i k J m_fdm
      (for_loop k
         (FGStateSpace.numericalJacobian_body FGFDMExec FGFDMExec_Run
            y x y0 x0 h i)
         (J, m_fdm)).
Proof.
  intros Hi Hrow k.
  induction k as [| k IH]; intros Hk.
  - rewrite for_loop_0. unfold FGStateSpace.columns_done; simpl.
    repeat split; auto. intros j Hj. lia.
  - rewrite for_loop_S.
    specialize (IH ltac:(lia)).
    destruct (for_loop k
                (FGStateSpace.numericalJacobian_body FGFDMExec FGFDMExec_Run
                   y x y0 x0 h i) (J, m_fdm)) as [Jk sk].
    destruct IH as (Hs & Hlen & Hrowk & Hother & Hdone).
    simpl in Hs, Hlen, Hrowk, Hother, Hdone.
    rewrite numericalJacobian_body_eq.
    unfold FGStateSpace.columns_done; simpl.
    assert (Hik : (i < length Jk)%nat) by lia.
    repeat split.
    + rewrite for_loop_S, Hs. reflexivity.
    + rewrite store_length. exact Hlen.
    + rewrite nth_store_same by exact Hik.
      rewrite store_length. exact Hrowk.
    + intros i' Hi'. rewrite nth_store_other by congruence.
      apply Hother; assumption.
    + intros j Hj. rewrite nth_store_same by exact Hik.
      destruct (Nat.eq_dec j k) as [-> | Hjk].
      * rewrite nth_store_same by lia. rewrite Hs. reflexivity.
      * rewrite nth_store_other by congruence. apply Hdone. lia.
Qed.

Lemma outer_loop_invariant (n : nat) (J : list (list R))
  (m_fdm : FGFDMExec) :
  forall k, (k <= length J)%nat ->
    FGStateSpace.rows_done FGFDMExec FGFDMExec_Run y x y0 x0 h n k J m_fdm
      (for_loop k
         (FGStateSpace.numericalJacobian_row FGFDMExec FGFDMExec_Run
            y x y0 x0 h n)
         (J, m_fdm)).
Proof.
  induction k as [| k IH]; intros Hk.
  - rewrite for_loop_0. unfold FGStateSpace.rows_done; simpl.
    repeat split. intros i j Hi. lia.
  - rewrite for_loop_S.
    specialize (IH ltac:(lia)).
    destruct (for_loop k
                (FGStateSpace.numericalJacobian_row FGFDMExec FGFDMExec_Run
                   y x y0 x0 h n) (J, m_fdm)) as [Jk sk].
    destruct IH as (Hs & Hlen & Hdone).
    simpl in Hs, Hlen, Hdone.
    unfold FGStateSpace.numericalJacobian_row.
    assert (Hkk : (k < length Jk)%nat) by lia.
    pose proof (inner_loop_invariant n k
                  (store k (resize n 0 (nth k Jk [])) Jk) sk) as Hinner.
    rewrite store_length in Hinner.
    specialize (Hinner Hkk).
    rewrite nth_store_same in Hinner by exact Hkk.
    specialize (Hinner (resize_length n 0 (nth k Jk [])) n (le_n n)).
    destruct Hinner as (Hs' & Hlen' & _ & Hother & Hcols).
    rewrite store_length in Hlen'.
    unfold FGStateSpace.rows_done. repeat split.
    + rewrite Hs'. rewrite for_loop_S, Hs. reflexivity.
    + rewrite Hlen'. exact Hlen.
    + intros i j Hi Hj.
      destruct (Nat.eq_dec i k) as [-> | Hik].
      * rewrite Hcols by exact Hj.
        unfold FGStateSpace.fdm_at. rewrite Hs. reflexivity.
      * rewrite Hother by exact Hik.
        rewrite nth_store_other by congruence.
        apply Hdone; lia.
Qed.

(** Every entry of the matrix that [numericalJacobian] returns is the
    stencil value of its row and column, and the executive it returns is
    [fdm_after_jacobian]. *)
Lemma numericalJacobian_entries (J : list (list R)) (m_fdm : FGFDMExec) :
  snd (FGStateSpace.numericalJacobian FGFDMExec FGFDMExec_Run J y x y0 x0 h
         m_fdm)
  = FGStateSpace.fdm_after_jacobian FGFDMExec FGFDMExec_Run y x y0 x0 h m_fdm
  /\
  forall i j,
    (i < FGStateSpace.getSize FGFDMExec y)%nat ->
    (j < FGStateSpace.getSize FGFDMExec x)%nat ->
    nth j (nth i (fst (FGStateSpace.numericalJacobian FGFDMExec FGFDMExec_Run
                         J y x y0 x0 h m_fdm)) []) 0
    = FGStateSpace.stencil FGFDMExec FGFDMExec_Run y x y0 x0 h i j
        (FGStateSpace.fdm_at FGFDMExec FGFDMExec_Run y x y0 x0 h
           (FGStateSpace.getSize FGFDMExec x) i j m_fdm).
Proof.
  unfold FGStateSpace.numericalJacobian.
  set (n := FGStateSpace.getSize FGFDMExec x).
  set (m := FGStateSpace.getSize FGFDMExec y).
  pose proof (outer_loop_invariant n (resize m [] J) m_fdm m) as Hout.
  rewrite resize_length in Hout.
  destruct (Hout (le_n m)) as (Hs & _ & Hdone).
  split.
  - exact Hs.
  - intros i j Hi Hj. apply Hdone; assumption.
Qed.

End Jacobian.

(** C3, as the code has it.  [numericalJacobian]: the executive on entry
    to the body at row [i] and column [j] is [start i j], where the first
    body is entered with the executive passed in, each body leaves the
    baseline restored after its fourth evaluation, and a row is entered
    with what the row before left.  For every [i] and [j] within the sizes
    of [y] and [x], the entry [J[i][j]] returned is
    (8 (f1 - fn1) - (f2 - fn2)) / (12 h), where f1, f2, fn1 and fn2 are
    component [i] of [y] read after one run of the simulation, each run
    made, one after the other, from the restored baseline ([x] set to [x0],
    then [y] set to [y0]) with component [j] of [x] set to b + h, b + 2h,
    b - h and b - 2h, b being what [x.get(j)] reads in that restored
    baseline.  Where the restored baseline reads [x0[j]] at component [j],
    the four values set are x0[j]+h, x0[j]+2h, x0[j]-h and x0[j]-2h.
    [linearize]: the step size of the executive is set to h = 1e-5 first,
    and its four matrices are those of [numericalJacobian] for this h, of
    [x] by [x], of [x] by [u], of [y] by [x] and of [y] by [u], each
    computed on the executive that the one before left. *)
Theorem numericalJacobian_four_point_stencil :
  (forall (J : list (list R)) (y x : FGStateSpace.ComponentVector FGFDMExec)
          (y0 x0 : list R) (h : R) (m_fdm : FGFDMExec),
      let m := FGStateSpace.getSize FGFDMExec y in
      let n := FGStateSpace.getSize FGFDMExec x in
      let get_y := FGStateSpace.get FGFDMExec y in
      let get_x := FGStateSpace.get FGFDMExec x in
      let set_x := FGStateSpace.set FGFDMExec x in
      let baseline := fun s =>
        FGStateSpace.set_all FGFDMExec y y0
          (FGStateSpace.set_all FGFDMExec x x0 s) in
      let run_with := fun (j : nat) (perturb : R -> R) (s : FGFDMExec) =>
        FGFDMExec_Run
          (set_x j (perturb (get_x j (baseline s))) (baseline s)) in
      let s1 := fun j s => run_with j (fun b => b + h) s in
      let s2 := fun j s => run_with j (fun b => b + 2 * h) (s1 j s) in
      let sn1 := fun j s => run_with j (fun b => b - h) (s2 j s) in
      let sn2 := fun j s => run_with j (fun b => b - 2 * h) (sn1 j s) in
      let result :=
        FGStateSpace.numericalJacobian FGFDMExec FGFDMExec_Run
          J y x y0 x0 h m_fdm in
      exists start : nat -> nat -> FGFDMExec,
        (start 0%nat 0%nat = m_fdm /\
         (forall i j, start i (S j) = baseline (sn2 j (start i j))) /\
         (forall i, start (S i) 0%nat = start i n)) /\
        (forall i j, (i < m)%nat -> (j < n)%nat ->
           nth j (nth i (fst result) []) 0
           = (8 * (get_y i (s1 j (start i j)) - get_y i (sn1 j (start i j)))
              - (get_y i (s2 j (start i j)) - get_y i (sn2 j (start i j))))
             / (12 * h)) /\
        snd result = start m 0%nat /\
        (forall j,
           (forall s, get_x j (baseline s) = nth j x0 0) ->
           forall s,
             s1 j s = FGFDMExec_Run (set_x j (nth j x0 0 + h) (baseline s))
             /\
             s2 j s
             = FGFDMExec_Run
                 (set_x j (nth j x0 0 + 2 * h) (baseline (s1 j s))) /\
             sn1 j s
             = FGFDMExec_Run (set_x j (nth j x0 0 - h) (baseline (s2 j s)))
             /\
             sn2 j s
             = FGFDMExec_Run
                 (set_x j (nth j x0 0 - 2 * h) (baseline (sn1 j s)))))
  /\
  (forall (this : FGStateSpace.t FGFDMExec) (x0 u0 y0 : list R)
          (A B C D : list (list R)) (m_fdm : FGFDMExec),
      let h := 1e-5 in
      let x := FGStateSpace.x FGFDMExec this in
      let u := FGStateSpace.u FGFDMExec this in
      let y := FGStateSpace.y FGFDMExec this in
      let jacobian := FGStateSpace.numericalJacobian FGFDMExec FGFDMExec_Run in
      let rA := jacobian A x x x0 x0 h (Setdt h m_fdm) in
      let rB := jacobian B x u x0 u0 h (snd rA) in
      let rC := jacobian C y x y0 x0 h (snd rB) in
      let rD := jacobian D y u y0 u0 h (snd rC) in
      FGStateSpace.linearize FGFDMExec FGFDMExec_Run Setdt this x0 u0 y0
        A B C D m_fdm
      = FGStateSpace.mkLinearized FGFDMExec
          (fst rA) (fst rB) (fst rC) (fst rD) (snd rD)).
Proof.
  split.
  - intros J y x y0 x0 h m_fdm m n get_y get_x set_x baseline run_with
           s1 s2 sn1 sn2 result.
    exists (fun i j =>
              FGStateSpace.fdm_at FGFDMExec FGFDMExec_Run y x y0 x0 h n i j
                m_fdm).
    destruct (numericalJacobian_entries y x y0 x0 h J m_fdm) as [Hsnd Hent].
    split; [| split; [| split]].
    + split; [reflexivity | split].
      * intros i j. unfold FGStateSpace.fdm_at.
        rewrite for_loop_S. reflexivity.
      * intros i. unfold FGStateSpace.fdm_at.
        rewrite for_loop_0, for_loop_S. reflexivity.
    + intros i j Hi Hj. subst result.
      rewrite (Hent i j Hi Hj). reflexivity.
    + subst result. rewrite Hsnd. reflexivity.
    + intros j Hget s.
      subst s1 s2 sn1 sn2 run_with. cbv beta.
      rewrite !Hget. repeat split.
  - intros this x0 u0 y0 A B C D m_fdm h x u y jacobian rA rB rC rD.
    subst rD rC rB rA jacobian.
    unfold FGStateSpace.linearize. fold h x u y.
    destruct (FGStateSpace.numericalJacobian FGFDMExec FGFDMExec_Run
                A x x x0 x0 h (Setdt h m_fdm)) as [A' sA].
    cbn [fst snd].
    destruct (FGStateSpace.numericalJacobian FGFDMExec FGFDMExec_Run
                B x u x0 u0 h sA) as [B' sB].
    cbn [fst snd].
    destruct (FGStateSpace.numericalJacobian FGFDMExec FGFDMExec_Run
                C y x y0 x0 h sB) as [C' sC].
    cbn [fst snd].
    destruct (FGStateSpace.numericalJacobian FGFDMExec FGFDMExec_Run
                D y u y0 u0 h sC) as [D' sD].
    reflexivity.
Qed.

End StateSpaceFacts.

(** The simulation that squares its one number, linearized at 3 with
    [y = x] and [y0 = x0]: the restored baseline reads 3, the first
    evaluation runs from 3 + h, and the stencil gives 6, the derivative of
    the square at 3. *)
Lemma numericalJacobian_square_witness :
  nth 0 (nth 0 (fst (FGStateSpace.numericalJacobian R square_Run []
                       square_component square_component [3] [3] 1e-5 3))
           []) 0
  = 6.
Proof.
  destruct (proj1 (numericalJacobian_four_point_stencil R square_Run
                     square_Setdt)
              [] square_component square_component [3] [3] 1e-5 3)
    as (start & (Hstart & _ & _) & Hentry & _ & Hx0).
  rewrite (Hentry 0%nat 0%nat (le_n 1) (le_n 1)), Hstart.
  destruct (Hx0 0%nat (fun s => eq_refl) 3) as (H1 & H2 & Hn1 & Hn2).
  rewrite Hn2, Hn1, H2, H1.
  unfold square_component, square_Run.
  cbn [FGStateSpace.get FGStateSpace.set FGStateSpace.set_all nth].
  field_simplify; lra.
Defined.

(** C3, as the claim words it, fails.  With [y] the same vector as [x],
    [y0 = [5]] and [x0 = [3]], the restored baseline reads 5, not
    [x0[0] = 3]: the evaluations are made around 5 and the entry is 10,
    where the stencil around [x0[0]] is 6. *)
Lemma numericalJacobian_perturbs_the_baseline :
  let J := fst (FGStateSpace.numericalJacobian R square_Run []
                  square_component square_component [5] [3] (1 / 4) 3) in
  nth 0 (nth 0 J []) 0 = 10 /\
  stencil_at_x0 R square_Run square_component square_component
    [5] [3] (1 / 4) 0 0 3 = 6 /\
  nth 0 (nth 0 J []) 0
  <> stencil_at_x0 R square_Run square_component square_component
       [5] [3] (1 / 4) 0 0 3.
Proof.
  assert (Hentry :
    nth 0 (nth 0 (fst (FGStateSpace.numericalJacobian R square_Run []
                         square_component square_component [5] [3] (1 / 4)
                         3)) []) 0 = 10).
  { destruct (numericalJacobian_entries R square_Run
                square_component square_component [5] [3] (1 / 4) [] 3)
      as [_ Hent].
    rewrite (Hent 0%nat 0%nat (le_n 1) (le_n 1)).
    unfold FGStateSpace.stencil, FGStateSpace.fdm_at,
      FGStateSpace.after_fn2, FGStateSpace.after_fn1,
      FGStateSpace.after_f2, FGStateSpace.after_f1,
      FGStateSpace.evaluation, FGStateSpace.restore,
      square_component, square_Run.
    cbn [FGStateSpace.get FGStateSpace.set FGStateSpace.set_all nth
         FGStateSpace.getSize for_loop seq fold_left].
    field_simplify; lra. }
  assert (Hclaimed :
    stencil_at_x0 R square_Run square_component square_component
      [5] [3] (1 / 4) 0 0 3 = 6).
  { unfold stencil_at_x0, square_component, square_Run.
    cbn [FGStateSpace.get FGStateSpace.set FGStateSpace.set_all nth].
    field_simplify; lra. }
  cbv zeta. rewrite Hentry, Hclaimed.
  repeat split. lra.
Qed.

(** * Further properties of the code *)

(** ** FGMassBalance: shape inertia *)

Section ShapeInertiaFacts.

Variable slugtolb : R.

(** X1.  Whatever the shape, [CalculateShapeInertia] writes the three
    diagonal entries of [mPMInertia] and nothing else: the shape, location,
    weight, radius, length and name of the point mass and the six
    off-diagonal entries are as before; for [esUnspecified] the point mass
    is returned as it is. *)
Theorem CalculateShapeInertia_writes_diagonal_only :
  forall pm : FGMassBalance.PointMass.t,
    let pm' := FGMassBalance.PointMass.CalculateShapeInertia slugtolb pm in
    let I := FGMassBalance.PointMass.mPMInertia pm in
    let I' := FGMassBalance.PointMass.mPMInertia pm' in
    (FGMassBalance.PointMass.eShapeType pm'
       = FGMassBalance.PointMass.eShapeType pm /\
     FGMassBalance.PointMass.Location pm'
       = FGMassBalance.PointMass.Location pm /\
     FGMassBalance.PointMass.Weight pm' = FGMassBalance.PointMass.Weight pm /\
     FGMassBalance.PointMass.Radius pm' = FGMassBalance.PointMass.Radius pm /\
     FGMassBalance.PointMass.Length pm' = FGMassBalance.PointMass.Length pm /\
     FGMassBalance.PointMass.Name pm' = FGMassBalance.PointMass.Name pm) /\
    (FGMatrix33.m12 I' = FGMatrix33.m12 I /\
     FGMatrix33.m13 I' = FGMatrix33.m13 I /\
     FGMatrix33.m21 I' = FGMatrix33.m21 I /\
     FGMatrix33.m23 I' = FGMatrix33.m23 I /\
     FGMatrix33.m31 I' = FGMatrix33.m31 I /\
     FGMatrix33.m32 I' = FGMatrix33.m32 I) /\
    (FGMassBalance.PointMass.eShapeType pm
       = FGMassBalance.PointMass.esUnspecified -> pm' = pm).
Proof.
  intros pm pm' I I'. subst pm' I I'.
  unfold FGMassBalance.PointMass.CalculateShapeInertia.
  destruct (FGMassBalance.PointMass.eShapeType pm) eqn:Hs;
    simpl; rewrite ?Hs; repeat split; intros; try discriminate.
Qed.

(** X2.  The closed forms of the other shapes, with m = Weight/slugtolb:
    a tube (hollow) gets Ixx = m r^2 and Iyy = Izz = m (6 r^2 + l^2) / 12,
    a cylinder (solid) Ixx = m r^2 / 2 and Iyy = Izz = m (3 r^2 + l^2) / 12,
    a ball (solid) Ixx = Iyy = Izz = 2 m r^2 / 5. *)
Theorem CalculateShapeInertia_closed_forms :
  forall pm : FGMassBalance.PointMass.t,
    let m := FGMassBalance.PointMass.Weight pm / slugtolb in
    let r := FGMassBalance.PointMass.Radius pm in
    let l := FGMassBalance.PointMass.Length pm in
    let I := FGMassBalance.PointMass.mPMInertia
               (FGMassBalance.PointMass.CalculateShapeInertia slugtolb pm) in
    (FGMassBalance.PointMass.eShapeType pm = FGMassBalance.PointMass.esTube ->
     FGMatrix33.m11 I = m * r ^ 2 /\
     FGMatrix33.m22 I = m * (6 * r ^ 2 + l ^ 2) / 12 /\
     FGMatrix33.m33 I = m * (6 * r ^ 2 + l ^ 2) / 12) /\
    (FGMassBalance.PointMass.eShapeType pm
       = FGMassBalance.PointMass.esCylinder ->
     FGMatrix33.m11 I = m * r ^ 2 / 2 /\
     FGMatrix33.m22 I = m * (3 * r ^ 2 + l ^ 2) / 12 /\
     FGMatrix33.m33 I = m * (3 * r ^ 2 + l ^ 2) / 12) /\
    (FGMassBalance.PointMass.eShapeType pm = FGMassBalance.PointMass.esBall ->
     FGMatrix33.m11 I = 2 * m * r ^ 2 / 5 /\
     FGMatrix33.m22 I = 2 * m * r ^ 2 / 5 /\
     FGMatrix33.m33 I = 2 * m * r ^ 2 / 5).
Proof.
  intros pm m r l I. subst I m r l.
  unfold FGMassBalance.PointMass.CalculateShapeInertia.
  split; [| split]; intros Hs; rewrite Hs; simpl;
    unfold Rdiv; rewrite ?Rinv_mult; repeat split; ring.
Qed.

(** X3.  Computing the shape inertia a second time changes nothing. *)
Theorem CalculateShapeInertia_idempotent :
  forall pm : FGMassBalance.PointMass.t,
    FGMassBalance.PointMass.CalculateShapeInertia slugtolb
      (FGMassBalance.PointMass.CalculateShapeInertia slugtolb pm)
    = FGMassBalance.PointMass.CalculateShapeInertia slugtolb pm.
Proof.
  intros [shape loc w r l name I].
  destruct shape; reflexivity.
Qed.

(** X4.  For every shape but [esUnspecified] the computed inertia is that
    of a body of revolution about the X axis, Iyy = Izz; and when the weight
    is not negative and [slugtolb] is positive, none of the three moments is
    negative. *)
Theorem CalculateShapeInertia_axisymmetric :
  forall pm : FGMassBalance.PointMass.t,
    FGMassBalance.PointMass.eShapeType pm
      <> FGMassBalance.PointMass.esUnspecified ->
    let I := FGMassBalance.PointMass.mPMInertia
               (FGMassBalance.PointMass.CalculateShapeInertia slugtolb pm) in
    FGMatrix33.m22 I = FGMatrix33.m33 I /\
    (0 <= FGMassBalance.PointMass.Weight pm -> 0 < slugtolb ->
     0 <= FGMatrix33.m11 I /\ 0 <= FGMatrix33.m22 I /\ 0 <= FGMatrix33.m33 I).
Proof.
  intros pm Hshape I. subst I.
  unfold FGMassBalance.PointMass.CalculateShapeInertia.
  set (w := FGMassBalance.PointMass.Weight pm).
  set (r := FGMassBalance.PointMass.Radius pm).
  set (l := FGMassBalance.PointMass.Length pm).
  assert (Hq : forall k, 0 <= w -> 0 < slugtolb -> 0 < k ->
                         0 <= w / (slugtolb * k)).
  { intros k Hw Hs Hk. apply Rmult_le_pos; [exact Hw |].
    left. apply Rinv_0_lt_compat. nra. }
  assert (Hq1 : 0 <= w -> 0 < slugtolb -> 0 <= w / slugtolb).
  { intros Hw Hs. apply Rmult_le_pos; [exact Hw |].
    left. apply Rinv_0_lt_compat. exact Hs. }
  destruct (FGMassBalance.PointMass.eShapeType pm) eqn:Hs;
    [congruence | | | |]; simpl; fold w r l;
    (split; [reflexivity | intros Hw Hpos]).
  - specialize (Hq1 Hw Hpos). specialize (Hq 12 Hw Hpos ltac:(lra)).
    repeat split; nra.
  - pose proof (Hq 2 Hw Hpos ltac:(lra)).
    pose proof (Hq 12 Hw Hpos ltac:(lra)).
    repeat split; nra.
  - pose proof (Hq 5 Hw Hpos ltac:(lra)). repeat split; nra.
  - pose proof (Hq 5 Hw Hpos ltac:(lra)). repeat split; nra.
Qed.

(** X5.  A point mass fresh from its constructor has radius and length
    zero: whatever shape is then set, [CalculateShapeInertia] leaves the
    inertia matrix zero, as the constructor made it. *)
Theorem CalculateShapeInertia_fresh_point_mass :
  forall (indeterminate st : FGMassBalance.PointMass.esShape) (w : R)
         (vXYZ : FGColumnVector3.t),
    FGMassBalance.PointMass.mPMInertia
      (FGMassBalance.PointMass.CalculateShapeInertia slugtolb
         (SetPointMassShapeType (PointMass indeterminate w vXYZ) st))
    = FGMatrix33.InitMatrix.
Proof.
  intros indeterminate st w vXYZ.
  unfold FGMassBalance.PointMass.CalculateShapeInertia, FGMatrix33.InitMatrix.
  destruct st; simpl; try reflexivity;
    unfold FGMatrix33.set33, FGMatrix33.set22, FGMatrix33.set11; simpl;
    replace 0.0 with 0 by lra; f_equal; ring.
Qed.

End ShapeInertiaFacts.

(** The tube of 10 lb: Ixx = m r^2 with r = 2, and Iyy = Izz. *)
Lemma CalculateShapeInertia_closed_forms_witness :
  FGMatrix33.m11
    (FGMassBalance.PointMass.mPMInertia
       (FGMassBalance.PointMass.CalculateShapeInertia 32.174049 tube_10lb))
  = 10 / 32.174049 * 2 ^ 2.
Proof.
  exact (proj1 (proj1 (CalculateShapeInertia_closed_forms 32.174049
                         tube_10lb) eq_refl)).
Defined.

Lemma CalculateShapeInertia_axisymmetric_witness :
  let I := FGMassBalance.PointMass.mPMInertia
             (FGMassBalance.PointMass.CalculateShapeInertia 32.174049
                tube_10lb) in
  FGMatrix33.m22 I = FGMatrix33.m33 I /\ 0 <= FGMatrix33.m11 I.
Proof.
  intro I.
  assert (Hshape : FGMassBalance.PointMass.eShapeType tube_10lb
                   <> FGMassBalance.PointMass.esUnspecified)
    by (simpl; discriminate).
  destruct (CalculateShapeInertia_axisymmetric 32.174049 tube_10lb Hshape)
    as [Heq Hpos].
  split; [exact Heq |].
  apply Hpos; simpl; lra.
Defined.

(** ** FGMassBalance: the inertia of a point mass *)

Section PointmassInertiaMore.

Variable StructuralToBody :
  FGMassBalance.t -> FGColumnVector3.t -> FGColumnVector3.t.

(** X6.  The matrix that [GetPointmassInertia] returns is symmetric, its
    product with the body-frame position (v1, v2, v3) of the point mass is
    the zero vector (a point mass has no inertia about the line through the
    origin and itself), and its trace is 2 slugs (v1^2 + v2^2 + v3^2). *)
Theorem GetPointmassInertia_symmetric_kernel :
  forall (this : FGMassBalance.t) (slugs : R) (r : FGColumnVector3.t),
    let v := StructuralToBody this r in
    let v1 := FGColumnVector3.c1 v in
    let v2 := FGColumnVector3.c2 v in
    let v3 := FGColumnVector3.c3 v in
    let I := FGMassBalance.GetPointmassInertia StructuralToBody this slugs r in
    (FGMatrix33.m12 I = FGMatrix33.m21 I /\
     FGMatrix33.m13 I = FGMatrix33.m31 I /\
     FGMatrix33.m23 I = FGMatrix33.m32 I) /\
    (FGMatrix33.m11 I * v1 + FGMatrix33.m12 I * v2 + FGMatrix33.m13 I * v3 = 0
     /\
     FGMatrix33.m21 I * v1 + FGMatrix33.m22 I * v2 + FGMatrix33.m23 I * v3 = 0
     /\
     FGMatrix33.m31 I * v1 + FGMatrix33.m32 I * v2 + FGMatrix33.m33 I * v3
     = 0) /\
    FGMatrix33.m11 I + FGMatrix33.m22 I + FGMatrix33.m33 I
    = 2 * slugs * (v1 ^ 2 + v2 ^ 2 + v3 ^ 2).
Proof.
  intros this slugs r v v1 v2 v3 I.
  subst I v1 v2 v3.
  unfold FGMassBalance.GetPointmassInertia.
  fold v. simpl.
  repeat split; ring.
Qed.

(** X7.  [GetPointmassInertia] is additive in the mass: at one position,
    the matrix for the mass s1 + s2 is the entrywise sum of the matrices for
    s1 and for s2, and the matrix for the mass zero is the zero matrix.  For
    a mass that is not negative no diagonal entry is negative. *)
Theorem GetPointmassInertia_additive_in_mass :
  forall (this : FGMassBalance.t) (s1 s2 : R) (r : FGColumnVector3.t),
    let I := FGMassBalance.GetPointmassInertia StructuralToBody this in
    (FGMatrix33.m11 (I (s1 + s2) r)
       = FGMatrix33.m11 (I s1 r) + FGMatrix33.m11 (I s2 r) /\
     FGMatrix33.m12 (I (s1 + s2) r)
       = FGMatrix33.m12 (I s1 r) + FGMatrix33.m12 (I s2 r) /\
     FGMatrix33.m13 (I (s1 + s2) r)
       = FGMatrix33.m13 (I s1 r) + FGMatrix33.m13 (I s2 r) /\
     FGMatrix33.m21 (I (s1 + s2) r)
       = FGMatrix33.m21 (I s1 r) + FGMatrix33.m21 (I s2 r) /\
     FGMatrix33.m22 (I (s1 + s2) r)
       = FGMatrix33.m22 (I s1 r) + FGMatrix33.m22 (I s2 r) /\
     FGMatrix33.m23 (I (s1 + s2) r)
       = FGMatrix33.m23 (I s1 r) + FGMatrix33.m23 (I s2 r) /\
     FGMatrix33.m31 (I (s1 + s2) r)
       = FGMatrix33.m31 (I s1 r) + FGMatrix33.m31 (I s2 r) /\
     FGMatrix33.m32 (I (s1 + s2) r)
       = FGMatrix33.m32 (I s1 r) + FGMatrix33.m32 (I s2 r) /\
     FGMatrix33.m33 (I (s1 + s2) r)
       = FGMatrix33.m33 (I s1 r) + FGMatrix33.m33 (I s2 r)) /\
    I 0 r = FGMatrix33.mk 0 0 0 0 0 0 0 0 0 /\
    (0 <= s1 ->
     0 <= FGMatrix33.m11 (I s1 r) /\
     0 <= FGMatrix33.m22 (I s1 r) /\
     0 <= FGMatrix33.m33 (I s1 r)).
Proof.
  intros this s1 s2 r I. subst I.
  unfold FGMassBalance.GetPointmassInertia.
  set (v := StructuralToBody this r).
  simpl.
  split; [repeat split; ring | split].
  - f_equal; ring.
  - intros Hs.
    pose proof (Rle_0_sqr (FGColumnVector3.c1 v)) as H1.
    pose proof (Rle_0_sqr (FGColumnVector3.c2 v)) as H2.
    pose proof (Rle_0_sqr (FGColumnVector3.c3 v)) as H3.
    unfold Rsqr in H1, H2, H3.
    repeat split; nra.
Qed.

End PointmassInertiaMore.

(** ** FGPropagate: setters and getters *)

Lemma assign_twice (v : FGColumnVector3.t) (i : N) (v1 v2 : R) :
  and_then (FGColumnVector3.assign v i v1)
           (fun v' => FGColumnVector3.assign v' i v2)
  = FGColumnVector3.assign v i v2.
Proof.
  destruct i as [|[[|[]|]|[|[]|]|]]; reflexivity.
Qed.

(** X8.  What [SetPQR(i, val)] wrote is what [GetPQR(i)] reads back, for
    i in 1..3; the other entries of [vPQR], and [vUVW] and [vPQRi] at every
    index, read as before.  The same holds of [SetUVW] and [GetUVW]. *)
Theorem SetPQR_GetPQR_round_trip :
  forall (VState : FGPropagate.VehicleState) (i : N) (val : R),
    (1 <= i <= 3)%N ->
    (exists VState',
        FGPropagate.SetPQR VState i val = Some VState' /\
        GetPQR VState' (Z.of_N i) = Some val /\
        (forall k : Z, k <> Z.of_N i -> GetPQR VState' k = GetPQR VState k) /\
        (forall k : Z, GetUVW VState' k = GetUVW VState k) /\
        (forall k : Z, GetPQRi VState' k = GetPQRi VState k)) /\
    (exists VState',
        FGPropagate.SetUVW VState i val = Some VState' /\
        GetUVW VState' (Z.of_N i) = Some val /\
        (forall k : Z, k <> Z.of_N i -> GetUVW VState' k = GetUVW VState k) /\
        (forall k : Z, GetPQR VState' k = GetPQR VState k) /\
        (forall k : Z, GetPQRi VState' k = GetPQRi VState k)).
Proof.
  intros VState i val Hi.
  destruct (assign_in_range (FGPropagate.vPQR VState) i val Hi)
    as (p & Hpa & Hpi & Hpk).
  destruct (assign_in_range (FGPropagate.vUVW VState) i val Hi)
    as (u & Hua & Hui & Huk).
  assert (Hp : FGPropagate.SetPQR VState i val
               = Some (FGPropagate.with_vPQR VState p)).
  { unfold FGPropagate.SetPQR.
    rewrite (guard_in_range i Hi), Hpa. reflexivity. }
  assert (Hu : FGPropagate.SetUVW VState i val
               = Some (FGPropagate.with_vUVW VState u)).
  { unfold FGPropagate.SetUVW.
    rewrite (guard_in_range i Hi), Hua. reflexivity. }
  assert (Hneg : (Z.of_N i <? 0)%Z = false) by (apply Z.ltb_ge; lia).
  split.
  - exists (FGPropagate.with_vPQR VState p).
    split; [exact Hp | split; [| split; [| split]]].
    + unfold GetPQR. rewrite Hneg, N2Z.id. exact Hpi.
    + intros k Hk. unfold GetPQR.
      destruct (k <? 0)%Z eqn:Hk0; [reflexivity |].
      apply Hpk. apply Z.ltb_ge in Hk0. lia.
    + reflexivity.
    + reflexivity.
  - exists (FGPropagate.with_vUVW VState u).
    split; [exact Hu | split; [| split; [| split]]].
    + unfold GetUVW. rewrite Hneg, N2Z.id. exact Hui.
    + intros k Hk. unfold GetUVW.
      destruct (k <? 0)%Z eqn:Hk0; [reflexivity |].
      apply Huk. apply Z.ltb_ge in Hk0. lia.
    + reflexivity.
    + reflexivity.
Qed.

Lemma SetPQR_GetPQR_round_trip_witness :
  exists VState',
    FGPropagate.SetPQR VState_at_rest 3 7 = Some VState' /\
    GetPQR VState' 3 = Some 7.
Proof.
  destruct (proj1 (SetPQR_GetPQR_round_trip VState_at_rest 3 7
                     ltac:(lia)))
    as (s & Hs & Hg & _).
  exists s. split; assumption.
Defined.

(** X9.  Two writes of the same entry leave what the second one alone
    leaves, and a [SetPQR] and a [SetUVW] give the same state in either
    order; both hold for every index, in or out of 1..3. *)
Theorem SetPQR_SetUVW_compose :
  forall (VState : FGPropagate.VehicleState) (i j : N) (v1 v2 : R),
    and_then (FGPropagate.SetPQR VState i v1)
             (fun s => FGPropagate.SetPQR s i v2)
    = FGPropagate.SetPQR VState i v2 /\
    and_then (FGPropagate.SetUVW VState i v1)
             (fun s => FGPropagate.SetUVW s i v2)
    = FGPropagate.SetUVW VState i v2 /\
    and_then (FGPropagate.SetPQR VState i v1)
             (fun s => FGPropagate.SetUVW s j v2)
    = and_then (FGPropagate.SetUVW VState j v2)
               (fun s => FGPropagate.SetPQR s i v1).
Proof.
  intros VState i j v1 v2.
  unfold FGPropagate.SetPQR, FGPropagate.SetUVW.
  split; [| split].
  - destruct i as [|[[|[]|]|[|[]|]|]]; reflexivity.
  - destruct i as [|[[|[]|]|[|[]|]|]]; reflexivity.
  - destruct i as [|[[|[]|]|[|[]|]|]];
      destruct j as [|[[|[]|]|[|[]|]|]]; reflexivity.
Qed.

Lemma resize_full {A : Type} (n : nat) (val : A) (d : list A) :
  length d = n -> resize n val d = d.
Proof.
  intros Hlen. unfold resize.
  rewrite firstn_all2 by lia.
  replace (n - length d)%nat with 0%nat by lia.
  apply app_nil_r.
Qed.




Section SetVStateMore.

Variable FGQuaternion_of_vector : FGColumnVector3.t -> FGQuaternion.t.


(** X11.  Setting the state to itself, [SetVState(GetVState())], changes
    nothing when each of the four histories holds exactly four entries. *)
Theorem SetVState_GetVState_identity :
  forall VState : FGPropagate.VehicleState,
    length (FGPropagate.dqPQRdot VState) = 4%nat ->
    length (FGPropagate.dqUVWdot VState) = 4%nat ->
    length (FGPropagate.dqInertialVelocity VState) = 4%nat ->
    length (FGPropagate.dqQtrndot VState) = 4%nat ->
    FGPropagate.SetVState FGQuaternion_of_vector VState (GetVState VState)
    = VState.
Proof.
  intros [loc uvw pqr pqri ql qe vi pos d1 d2 d3 d4] H1 H2 H3 H4.
  simpl in *. unfold FGPropagate.SetVState, GetVState. simpl.
  rewrite !resize_full by assumption. reflexivity.
Qed.

End SetVStateMore.


Lemma SetVState_GetVState_identity_witness :
  FGPropagate.SetVState (fun _ => FGQuaternion.mk 1 0 0 0)
    VState_with_history (GetVState VState_with_history)
  = VState_with_history.
Proof.
  exact (SetVState_GetVState_identity (fun _ => FGQuaternion.mk 1 0 0 0)
           VState_with_history eq_refl eq_refl eq_refl eq_refl).
Defined.

(** ** FGInertial: invariants of a call sequence *)

Lemma step_constants (this : FGInertial.t) (e : FGInertial.event) :
  let this' := FGInertial.step this e in
  FGInertial.RotationRate this' = FGInertial.RotationRate this /\
  FGInertial.GM this' = FGInertial.GM this /\
  FGInertial.RadiusReference this' = FGInertial.RadiusReference this /\
  FGInertial.C2_0 this' = FGInertial.C2_0 this /\
  FGInertial.J2 this' = FGInertial.J2 this /\
  FGInertial.a this' = FGInertial.a this /\
  FGInertial.b this' = FGInertial.b this /\
  FGInertial.gAccelReference this' = FGInertial.gAccelReference this.
Proof.
  destruct e as [ok | inp]; simpl.
  - unfold FGInertial.InitModel. destruct ok; simpl; repeat split.
  - unfold FGInertial.Run.
    destruct (FGInertial.FGModel_Run inp); [simpl; repeat split |].
    destruct (FGInertial.Holding inp); simpl; repeat split.
Qed.

Lemma run_events_constants (es : list FGInertial.event)
  (this : FGInertial.t) :
  let this' := FGInertial.run_events es this in
  FGInertial.RotationRate this' = FGInertial.RotationRate this /\
  FGInertial.GM this' = FGInertial.GM this /\
  FGInertial.RadiusReference this' = FGInertial.RadiusReference this /\
  FGInertial.C2_0 this' = FGInertial.C2_0 this /\
  FGInertial.J2 this' = FGInertial.J2 this /\
  FGInertial.a this' = FGInertial.a this /\
  FGInertial.b this' = FGInertial.b this /\
  FGInertial.gAccelReference this' = FGInertial.gAccelReference this.
Proof.
  cbv zeta. induction es as [| e es IH] using rev_ind.
  - repeat split.
  - rewrite run_events_snoc.
    destruct (step_constants (FGInertial.run_events es this) e)
      as (H1 & H2 & H3 & H4 & H5 & H6 & H7 & H8).
    destruct IH as (I1 & I2 & I3 & I4 & I5 & I6 & I7 & I8).
    repeat split; congruence.
Qed.

(** X12.  No sequence of [InitModel] and [Run] calls changes the planet
    constants of the object: the rotation rate, GM, the reference radius,
    C2,0, J2, the semimajor and semiminor axes and the reference
    gravitational acceleration are what they were before the sequence.  On
    a constructed object the reference acceleration is therefore always
    [GetGAccel] at the reference radius. *)
Theorem planet_constants_invariant :
  forall (es : list FGInertial.event) (this : FGInertial.t),
    let this' := FGInertial.run_events es this in
    (FGInertial.RotationRate this' = FGInertial.RotationRate this /\
     FGInertial.GM this' = FGInertial.GM this /\
     FGInertial.RadiusReference this' = FGInertial.RadiusReference this /\
     FGInertial.C2_0 this' = FGInertial.C2_0 this /\
     FGInertial.J2 this' = FGInertial.J2 this /\
     FGInertial.a this' = FGInertial.a this /\
     FGInertial.b this' = FGInertial.b this /\
     FGInertial.gAccelReference this' = FGInertial.gAccelReference this) /\
    (this = FGInertial.FGInertial ->
     FGInertial.gAccelReference this'
     = FGInertial.GetGAccel this' (FGInertial.RadiusReference this')).
Proof.
  intros es this this'. subst this'.
  pose proof (run_events_constants es this) as Hinv. cbv zeta in Hinv.
  split; [exact Hinv |].
  intros ->.
  destruct Hinv as (_ & HGM & HR & _ & _ & _ & _ & Href).
  unfold FGInertial.GetGAccel. rewrite Href, HGM, HR. reflexivity.
Qed.

Lemma GetRadius_fallback (VState : FGPropagate.VehicleState) :
  FGPropagate.GetRadius VState <> 0 /\
  (FGLocation.GetRadius (FGPropagate.vLocation VState) = 0 ->
   FGPropagate.GetRadius VState = 1.0).
Proof.
  unfold FGPropagate.GetRadius.
  destruct (Req_dec_T (FGLocation.GetRadius (FGPropagate.vLocation VState))
              0) as [H0 | Hn].
  - split; [lra | reflexivity].
  - split; [exact Hn | intros H; contradiction].
Qed.

Lemma Run_not_skipped_gAccel (inp : FGInertial.RunInputs)
  (this : FGInertial.t) :
  FGInertial.skipped inp = false ->
  FGInertial.gAccel (snd (FGInertial.Run inp this))
  = FGInertial.GM this
    / (FGPropagate.GetRadius (FGInertial.Propagate inp)
       * FGPropagate.GetRadius (FGInertial.Propagate inp)).
Proof.
  unfold FGInertial.skipped, FGInertial.Run. intros H.
  apply orb_false_iff in H. destruct H as [-> ->]. reflexivity.
Qed.

(** X13.  On a constructed object, after any sequence of calls, a [Run]
    that is not skipped sets [gAccel] to GM / r^2 with GM the value of the
    constructor, 14.07644180e15, and r = [Propagate->GetRadius()]; when the
    stored radius of the vehicle is zero the fallback radius 1.0 is used
    and [gAccel] becomes GM itself. *)
Theorem Run_sets_gAccel :
  forall (es : list FGInertial.event) (inp : FGInertial.RunInputs),
    FGInertial.skipped inp = false ->
    let this := FGInertial.run_events es FGInertial.FGInertial in
    let this' := FGInertial.step this (FGInertial.ev_Run inp) in
    let r := FGPropagate.GetRadius (FGInertial.Propagate inp) in
    FGInertial.gAccel this' = 14.07644180e15 / r ^ 2 /\
    (FGLocation.GetRadius (FGPropagate.vLocation (FGInertial.Propagate inp))
     = 0 ->
     FGInertial.gAccel this' = 14.07644180e15).
Proof.
  intros es inp Hs this this' r.
  assert (HGM : FGInertial.GM this = 14.07644180e15).
  { subst this.
    destruct (run_events_constants es FGInertial.FGInertial)
      as (_ & H & _).
    rewrite H. reflexivity. }
  subst this'. cbn [FGInertial.step].
  rewrite Run_not_skipped_gAccel by assumption.
  rewrite HGM. fold r.
  split.
  - replace (r ^ 2) with (r * r) by ring. reflexivity.
  - intros H0.
    destruct (GetRadius_fallback (FGInertial.Propagate inp))
      as (_ & Hone).
    subst r. rewrite (Hone H0).
    replace (1.0 * 1.0) with 1 by lra. lra.
Qed.

Lemma Run_sets_gAccel_witness :
  FGInertial.gAccel
    (FGInertial.step (FGInertial.run_events [] FGInertial.FGInertial)
       (FGInertial.ev_Run inputs_at_centre))
  = 14.07644180e15.
Proof.
  exact (proj2 (Run_sets_gAccel [] inputs_at_centre eq_refl) eq_refl).
Defined.

(** X14.  A list of [Run] calls advances the planetary rotation angle by
    RotationRate times the sum of the step sizes of the calls that are not
    skipped; after a successful [InitModel] the angle is exactly that
    product. *)
Theorem earthPosAngle_closed_form :
  forall (inps : list FGInertial.RunInputs) (this : FGInertial.t),
    FGInertial.earthPosAngle
      (FGInertial.run_events (map FGInertial.ev_Run inps) this)
    = FGInertial.earthPosAngle this
      + FGInertial.RotationRate this * elapsed inps /\
    FGInertial.earthPosAngle
      (FGInertial.run_events
         (FGInertial.ev_InitModel true :: map FGInertial.ev_Run inps) this)
    = FGInertial.RotationRate this * elapsed inps.
Proof.
  assert (Hgen : forall inps this,
    FGInertial.earthPosAngle
      (FGInertial.run_events (map FGInertial.ev_Run inps) this)
    = FGInertial.earthPosAngle this
      + FGInertial.RotationRate this * elapsed inps).
  { induction inps as [| inp inps IH]; intros this.
    - simpl. ring.
    - cbn [map FGInertial.run_events fold_left].
      change (fold_left FGInertial.step (map FGInertial.ev_Run inps)
                (FGInertial.step this (FGInertial.ev_Run inp)))
        with (FGInertial.run_events (map FGInertial.ev_Run inps)
                (FGInertial.step this (FGInertial.ev_Run inp))).
      rewrite IH, step_RotationRate.
      cbn [elapsed fold_right]. fold (elapsed inps).
      cbn [FGInertial.step].
      destruct (FGInertial.skipped inp) eqn:Hs.
      + rewrite Run_skipped by assumption. ring.
      + rewrite Run_not_skipped by assumption. ring. }
  intros inps this. split; [apply Hgen |].
  cbn [FGInertial.run_events fold_left].
  change (fold_left FGInertial.step (map FGInertial.ev_Run inps)
            (FGInertial.step this (FGInertial.ev_InitModel true)))
    with (FGInertial.run_events (map FGInertial.ev_Run inps)
            (FGInertial.step this (FGInertial.ev_InitModel true))).
  rewrite Hgen, step_RotationRate. simpl. lra.
Qed.

(** X15.  The hooks are called in pairs: along any call sequence the calls
    the object has made are, oldest first, those it had made before
    followed, for each [Run] that is not skipped, by one [RunPreFunctions]
    and then one [RunPostFunctions]; [InitModel] and a skipped [Run] call
    neither, and no call sequence calls [bind] or [Debug]. *)
Theorem hooks_called_in_pairs :
  forall (es : list FGInertial.event) (this : FGInertial.t),
    rev (FGInertial.calls (FGInertial.run_events es this))
    = rev (FGInertial.calls this) ++ flat_map hooks_of es.
Proof.
  intros es this.
  induction es as [| e es IH] using rev_ind.
  - simpl. rewrite app_nil_r. reflexivity.
  - rewrite run_events_snoc, flat_map_app, app_assoc, <- IH.
    cbn [flat_map]. rewrite app_nil_r.
    destruct e as [ok | inp]; cbn [FGInertial.step hooks_of].
    + unfold FGInertial.InitModel. destruct ok; simpl;
        rewrite app_nil_r; reflexivity.
    + destruct (FGInertial.skipped inp) eqn:Hs.
      * rewrite Run_skipped by assumption. rewrite app_nil_r. reflexivity.
      * unfold FGInertial.skipped in Hs. apply orb_false_iff in Hs.
        destruct Hs as [Hb Hh].
        unfold FGInertial.Run. rewrite Hb, Hh. simpl.
        rewrite <- app_assoc. reflexivity.
Qed.

(** ** FGInertial: symmetries of the J2 gravitation *)

Lemma Magnitude_opposite (p : FGColumnVector3.t) :
  FGColumnVector3.Magnitude (opposite p) = FGColumnVector3.Magnitude p.
Proof.
  unfold FGColumnVector3.Magnitude, opposite. simpl.
  f_equal. ring.
Qed.

(** X16.  [GetGravityJ2] is odd in the position: at the opposite position
    it returns the opposite vector.  Its X and Y components are in the
    proportion of the X and Y coordinates of the position, so the result
    has no component across the meridian plane of the position.  Two
    propagation states whose latitudes are equal or opposite give the same
    result. *)
Theorem GetGravityJ2_symmetries :
  forall (this : FGInertial.t) (P Q : FGPropagate.VehicleState)
         (p : FGColumnVector3.t),
    let g := FGInertial.GetGravityJ2 this P p in
    FGInertial.GetGravityJ2 this P (opposite p) = opposite g /\
    FGColumnVector3.c1 g * FGColumnVector3.c2 p
    = FGColumnVector3.c2 g * FGColumnVector3.c1 p /\
    (FGPropagate.GetLatitude Q = FGPropagate.GetLatitude P \/
     FGPropagate.GetLatitude Q = - FGPropagate.GetLatitude P ->
     FGInertial.GetGravityJ2 this Q p = g).
Proof.
  intros this P Q p g. subst g.
  split; [| split].
  - unfold FGInertial.GetGravityJ2.
    rewrite Magnitude_opposite.
    unfold opposite.
    cbn [FGColumnVector3.c1 FGColumnVector3.c2 FGColumnVector3.c3].
    unfold Rdiv. f_equal; ring.
  - unfold FGInertial.GetGravityJ2.
    cbn [FGColumnVector3.c1 FGColumnVector3.c2 FGColumnVector3.c3].
    unfold Rdiv. ring.
  - intros [H | H]; unfold FGInertial.GetGravityJ2; rewrite H.
    + reflexivity.
    + rewrite sin_neg. f_equal; unfold Rdiv; ring.
Qed.

(** ** FGStateSpace: the matrices returned *)

Lemma for_loop_id {S : Type} (n : nat) (s : S) :
  for_loop n (fun _ s' => s') s = s.
Proof.
  induction n as [| n IH].
  - reflexivity.
  - rewrite for_loop_S. exact IH.
Qed.

Lemma has_shape_ext (m n : nat) (M1 M2 : list (list R)) :
  has_shape m n M1 -> has_shape m n M2 ->
  (forall i j, (i < m)%nat -> (j < n)%nat ->
     nth j (nth i M1 []) 0 = nth j (nth i M2 []) 0) ->
  M1 = M2.
Proof.
  intros [Hl1 Hr1] [Hl2 Hr2] Hent.
  apply (nth_ext M1 M2 [] []); [congruence |].
  intros i Hi. rewrite Hl1 in Hi.
  apply (nth_ext _ _ 0 0).
  - rewrite Hr1, Hr2 by assumption. reflexivity.
  - intros j Hj. rewrite Hr1 in Hj by assumption.
    apply Hent; assumption.
Qed.

Section StateSpaceMore.

Variable FGFDMExec : Type.
Variable FGFDMExec_Run : FGFDMExec -> FGFDMExec.
Variable Setdt : R -> FGFDMExec -> FGFDMExec.

Lemma outer_loop_rows (y x : FGStateSpace.ComponentVector FGFDMExec)
  (y0 x0 : list R) (h : R) (n : nat) (J : list (list R))
  (m_fdm : FGFDMExec) :
  forall k, (k <= length J)%nat ->
    let st := for_loop k
                (FGStateSpace.numericalJacobian_row FGFDMExec FGFDMExec_Run
                   y x y0 x0 h n)
                (J, m_fdm) in
    length (fst st) = length J /\
    forall i, (i < k)%nat -> length (nth i (fst st) []) = n.
Proof.
  induction k as [| k IH]; intros Hk.
  - simpl. split; [reflexivity | intros i Hi; lia].
  - cbv zeta in *. rewrite for_loop_S.
    specialize (IH ltac:(lia)).
    destruct (for_loop k
                (FGStateSpace.numericalJacobian_row FGFDMExec FGFDMExec_Run
                   y x y0 x0 h n) (J, m_fdm)) as [Jk sk].
    destruct IH as [Hlen Hrows]. simpl in Hlen, Hrows.
    unfold FGStateSpace.numericalJacobian_row.
    assert (Hkk : (k < length Jk)%nat) by lia.
    pose proof (inner_loop_invariant FGFDMExec FGFDMExec_Run y x y0 x0 h
                  n k (store k (resize n 0 (nth k Jk [])) Jk) sk) as Hinner.
    rewrite store_length in Hinner.
    specialize (Hinner Hkk).
    rewrite nth_store_same in Hinner by exact Hkk.
    specialize (Hinner (resize_length n 0 (nth k Jk [])) n (le_n n)).
    destruct Hinner as (_ & Hlen' & Hrow & Hother & _).
    rewrite store_length in Hlen'.
    split.
    + rewrite Hlen'. exact Hlen.
    + intros i Hi.
      destruct (Nat.eq_dec i k) as [-> | Hik].
      * exact Hrow.
      * rewrite Hother by exact Hik.
        rewrite nth_store_other by congruence.
        apply Hrows. lia.
Qed.

Lemma numericalJacobian_rows (J : list (list R))
  (y x : FGStateSpace.ComponentVector FGFDMExec) (y0 x0 : list R) (h : R)
  (m_fdm : FGFDMExec) :
  let M := fst (FGStateSpace.numericalJacobian FGFDMExec FGFDMExec_Run
                  J y x y0 x0 h m_fdm) in
  length M = FGStateSpace.getSize FGFDMExec y /\
  forall i, (i < FGStateSpace.getSize FGFDMExec y)%nat ->
    length (nth i M []) = FGStateSpace.getSize FGFDMExec x.
Proof.
  unfold FGStateSpace.numericalJacobian.
  set (n := FGStateSpace.getSize FGFDMExec x).
  set (m := FGStateSpace.getSize FGFDMExec y).
  pose proof (outer_loop_rows y x y0 x0 h n (resize m [] J) m_fdm m) as H.
  rewrite resize_length in H.
  exact (H (le_n m)).
Qed.

(** The matrix passed in plays no part: the result is that of a call with
    the empty matrix. *)
Lemma numericalJacobian_from_empty (J : list (list R))
  (y x : FGStateSpace.ComponentVector FGFDMExec) (y0 x0 : list R) (h : R)
  (m_fdm : FGFDMExec) :
  FGStateSpace.numericalJacobian FGFDMExec FGFDMExec_Run J y x y0 x0 h m_fdm
  = FGStateSpace.numericalJacobian FGFDMExec FGFDMExec_Run
      [] y x y0 x0 h m_fdm.
Proof.
  destruct (numericalJacobian_entries FGFDMExec FGFDMExec_Run y x y0 x0 h
              J m_fdm) as [Hs1 He1].
  destruct (numericalJacobian_entries FGFDMExec FGFDMExec_Run y x y0 x0 h
              [] m_fdm) as [Hs2 He2].
  pose proof (numericalJacobian_rows J y x y0 x0 h m_fdm) as Hsh1.
  pose proof (numericalJacobian_rows [] y x y0 x0 h m_fdm) as Hsh2.
  destruct (FGStateSpace.numericalJacobian FGFDMExec FGFDMExec_Run
              J y x y0 x0 h m_fdm) as [M1 s1].
  destruct (FGStateSpace.numericalJacobian FGFDMExec FGFDMExec_Run
              [] y x y0 x0 h m_fdm) as [M2 s2].
  cbn [fst snd] in *. f_equal.
  - apply (has_shape_ext _ _ M1 M2 Hsh1 Hsh2).
    intros i j Hi Hj. rewrite He1, He2 by assumption. reflexivity.
  - congruence.
Qed.

(** X17.  Whatever the matrix [J] held when it was passed in,
    [numericalJacobian] returns a matrix of exactly [y.getSize()] rows of
    exactly [x.getSize()] entries each. *)
Theorem numericalJacobian_shape :
  forall (J : list (list R)) (y x : FGStateSpace.ComponentVector FGFDMExec)
         (y0 x0 : list R) (h : R) (m_fdm : FGFDMExec),
    has_shape (FGStateSpace.getSize FGFDMExec y)
              (FGStateSpace.getSize FGFDMExec x)
              (fst (FGStateSpace.numericalJacobian FGFDMExec FGFDMExec_Run
                      J y x y0 x0 h m_fdm)).
Proof.
  intros J y x y0 x0 h m_fdm.
  destruct (numericalJacobian_rows J y x y0 x0 h m_fdm) as [Hlen Hrows].
  split; [exact Hlen | exact Hrows].
Qed.

(** X18.  What [numericalJacobian] returns does not depend on the matrix
    passed in: every entry is overwritten, so two calls that differ in [J]
    only return the same matrix and leave the same executive. *)
Theorem numericalJacobian_overwrites :
  forall (J1 J2 : list (list R))
         (y x : FGStateSpace.ComponentVector FGFDMExec)
         (y0 x0 : list R) (h : R) (m_fdm : FGFDMExec),
    FGStateSpace.numericalJacobian FGFDMExec FGFDMExec_Run
      J1 y x y0 x0 h m_fdm
    = FGStateSpace.numericalJacobian FGFDMExec FGFDMExec_Run
        J2 y x y0 x0 h m_fdm.
Proof.
  intros J1 J2 y x y0 x0 h m_fdm.
  rewrite (numericalJacobian_from_empty J1).
  rewrite (numericalJacobian_from_empty J2).
  reflexivity.
Qed.

(** X19.  With no output component ([y.getSize()] zero)
    [numericalJacobian] returns the empty matrix, and with no state
    component ([x.getSize()] zero) a matrix of [y.getSize()] empty rows; in
    both cases the simulation is not run and nothing is set: the executive
    is returned as it was. *)
Theorem numericalJacobian_empty :
  forall (J : list (list R)) (y x : FGStateSpace.ComponentVector FGFDMExec)
         (y0 x0 : list R) (h : R) (m_fdm : FGFDMExec),
    (FGStateSpace.getSize FGFDMExec y = 0%nat ->
     FGStateSpace.numericalJacobian FGFDMExec FGFDMExec_Run
       J y x y0 x0 h m_fdm
     = ([], m_fdm)) /\
    (FGStateSpace.getSize FGFDMExec x = 0%nat ->
     FGStateSpace.numericalJacobian FGFDMExec FGFDMExec_Run
       J y x y0 x0 h m_fdm
     = (repeat [] (FGStateSpace.getSize FGFDMExec y), m_fdm)).
Proof.
  intros J y x y0 x0 h m_fdm. split.
  - intros Hm. unfold FGStateSpace.numericalJacobian. rewrite Hm.
    reflexivity.
  - intros Hn.
    destruct (numericalJacobian_entries FGFDMExec FGFDMExec_Run y x y0 x0 h
                J m_fdm) as [Hs _].
    pose proof (numericalJacobian_rows J y x y0 x0 h m_fdm) as Hsh.
    destruct (FGStateSpace.numericalJacobian FGFDMExec FGFDMExec_Run
                J y x y0 x0 h m_fdm) as [M s].
    cbn [fst snd] in *. rewrite Hn in Hsh. f_equal.
    + apply (has_shape_ext (FGStateSpace.getSize FGFDMExec y) 0 M _ Hsh).
      * split; [apply repeat_length |].
        intros i Hi. rewrite nth_repeat_lt by exact Hi. reflexivity.
      * intros i j Hi Hj. lia.
    + rewrite Hs. unfold FGStateSpace.fdm_after_jacobian.
      rewrite Hn. unfold FGStateSpace.fdm_row.
      cbn [for_loop seq fold_left]. apply for_loop_id.
Qed.

(** X20.  [linearize] returns A of nx rows by nx columns, B of nx by nu,
    C of ny by nx and D of ny by nu, where nx, nu and ny are the sizes of
    [x], [u] and [y]; and nothing it returns depends on what A, B, C and D
    held when they were passed in. *)
Theorem linearize_shapes :
  forall (this : FGStateSpace.t FGFDMExec) (x0 u0 y0 : list R)
         (A B C D : list (list R)) (m_fdm : FGFDMExec),
    let nx := FGStateSpace.getSize FGFDMExec (FGStateSpace.x FGFDMExec this) in
    let nu := FGStateSpace.getSize FGFDMExec (FGStateSpace.u FGFDMExec this) in
    let ny := FGStateSpace.getSize FGFDMExec (FGStateSpace.y FGFDMExec this) in
    let result :=
      FGStateSpace.linearize FGFDMExec FGFDMExec_Run Setdt this x0 u0 y0
        A B C D m_fdm in
    has_shape nx nx (FGStateSpace.A FGFDMExec result) /\
    has_shape nx nu (FGStateSpace.B FGFDMExec result) /\
    has_shape ny nx (FGStateSpace.C FGFDMExec result) /\
    has_shape ny nu (FGStateSpace.D FGFDMExec result) /\
    result
    = FGStateSpace.linearize FGFDMExec FGFDMExec_Run Setdt this x0 u0 y0
        [] [] [] [] m_fdm.
Proof.
  intros this x0 u0 y0 A B C D m_fdm nx nu ny result.
  subst result nx nu ny.
  unfold FGStateSpace.linearize.
  set (h := 1e-5).
  set (x := FGStateSpace.x FGFDMExec this).
  set (u := FGStateSpace.u FGFDMExec this).
  set (y := FGStateSpace.y FGFDMExec this).
  set (sA := Setdt h m_fdm).
  rewrite (numericalJacobian_from_empty A x x x0 x0 h sA).
  pose proof (numericalJacobian_rows [] x x x0 x0 h sA) as HA.
  destruct (FGStateSpace.numericalJacobian FGFDMExec FGFDMExec_Run
              [] x x x0 x0 h sA) as [A' sB].
  rewrite (numericalJacobian_from_empty B x u x0 u0 h sB).
  pose proof (numericalJacobian_rows [] x u x0 u0 h sB) as HB.
  destruct (FGStateSpace.numericalJacobian FGFDMExec FGFDMExec_Run
              [] x u x0 u0 h sB) as [B' sC].
  rewrite (numericalJacobian_from_empty C y x y0 x0 h sC).
  pose proof (numericalJacobian_rows [] y x y0 x0 h sC) as HC.
  destruct (FGStateSpace.numericalJacobian FGFDMExec FGFDMExec_Run
              [] y x y0 x0 h sC) as [C' sD].
  rewrite (numericalJacobian_from_empty D y u y0 u0 h sD).
  pose proof (numericalJacobian_rows [] y u y0 u0 h sD) as HD.
  destruct (FGStateSpace.numericalJacobian FGFDMExec FGFDMExec_Run
              [] y u y0 u0 h sD) as [D' sE].
  cbn [fst FGStateSpace.A FGStateSpace.B FGStateSpace.C FGStateSpace.D] in *.
  repeat split; try apply HA; try apply HB; try apply HC; try apply HD.
Qed.

End StateSpaceMore.

Lemma numericalJacobian_empty_witness :
  FGStateSpace.numericalJacobian R square_Run [[1; 2]; [3]]
    (FGStateSpace.mkComponentVector R 0
       (fun _ v => v) (fun _ val _ => val) (fun _ v => v))
    square_component [] [3] 1e-5 3
  = ([], 3).
Proof.
  exact (proj1 (numericalJacobian_empty R square_Run [[1; 2]; [3]]
                  (FGStateSpace.mkComponentVector R 0
                     (fun _ v => v) (fun _ val _ => val) (fun _ v => v))
                  square_component [] [3] 1e-5 3) eq_refl).
Defined.

(** ** string_utilities: trimming *)

Import Ascii.
Import string_utilities.

Lemma list_last_case {A : Type} (l : list A) :
  l = [] \/ exists l' a, l = l' ++ [a].
Proof.
  induction l as [| a l' _] using rev_ind.
  - left. reflexivity.
  - right. exists l', a. reflexivity.
Qed.

Lemma trim_left_loop (fuel : nat) (str : list ascii) :
  (length str <= fuel)%nat ->
  while_loop fuel trim_left_cond (fun str => erase 0 1 str) str
  = skip_spaces str.
Proof.
  revert str. induction fuel as [| fuel IH]; intros str Hlen.
  - destruct str; [reflexivity | simpl in Hlen; lia].
  - destruct str as [| c str']; [reflexivity |].
    cbn [while_loop]. unfold trim_left_cond.
    cbn [length Nat.eqb negb andb nth skip_spaces].
    destruct (isspace c); [| reflexivity].
    unfold erase; cbn [firstn skipn Nat.add app].
    apply IH. simpl in Hlen. lia.
Qed.

Lemma trim_left_skip_spaces (str : list ascii) :
  trim_left str = skip_spaces str.
Proof. apply trim_left_loop. apply le_n. Qed.

Lemma erase_last (l : list ascii) (c : ascii) :
  erase (length (l ++ [c]) - 1) 1 (l ++ [c]) = l.
Proof.
  unfold erase. rewrite length_app. cbn [length].
  replace (length l + 1 - 1)%nat with (length l) by lia.
  rewrite firstn_app, firstn_all, Nat.sub_diag. cbn [firstn].
  rewrite skipn_all2 by (rewrite length_app; simpl; lia).
  rewrite !app_nil_r. reflexivity.
Qed.

Lemma nth_last (l : list ascii) (c d : ascii) :
  nth (length (l ++ [c]) - 1) (l ++ [c]) d = c.
Proof.
  rewrite length_app. cbn [length].
  replace (length l + 1 - 1)%nat with (length l) by lia.
  apply nth_middle.
Qed.

Lemma trim_right_loop (fuel : nat) (str : list ascii) :
  (length str <= fuel)%nat ->
  while_loop fuel trim_right_cond
    (fun str => erase (length str - 1) 1 str) str
  = rev (skip_spaces (rev str)).
Proof.
  revert str. induction fuel as [| fuel IH]; intros str Hlen.
  - destruct str; [reflexivity | simpl in Hlen; lia].
  - destruct (list_last_case str) as [-> | (l & c & ->)]; [reflexivity |].
    cbn [while_loop]. unfold trim_right_cond.
    rewrite nth_last, rev_unit. cbn [skip_spaces].
    assert (Hne : (length (l ++ [c]) =? 0)%nat = false).
    { apply Nat.eqb_neq. rewrite length_app. simpl. lia. }
    rewrite Hne. cbn [negb andb].
    destruct (isspace c).
    + rewrite erase_last. apply IH.
      rewrite length_app in Hlen. simpl in Hlen. lia.
    + cbn [rev]. rewrite rev_involutive. reflexivity.
Qed.

Lemma trim_right_skip_spaces (str : list ascii) :
  trim_right str = rev (skip_spaces (rev str)).
Proof. apply trim_right_loop. apply le_n. Qed.

Lemma skip_spaces_decompose (str : list ascii) :
  exists pre,
    str = pre ++ skip_spaces str /\ forallb isspace pre = true.
Proof.
  induction str as [| c str' (pre & Heq & Hpre)].
  - exists []. split; reflexivity.
  - cbn [skip_spaces]. destruct (isspace c) eqn:Hc.
    + exists (c :: pre). split.
      * cbn [app]. f_equal. exact Heq.
      * cbn [forallb]. rewrite Hc, Hpre. reflexivity.
    + exists []. split; reflexivity.
Qed.

Lemma skip_spaces_head (str : list ascii) :
  trim_left_cond (skip_spaces str) = false.
Proof.
  induction str as [| c str' IH].
  - reflexivity.
  - cbn [skip_spaces]. destruct (isspace c) eqn:Hc; [exact IH |].
    unfold trim_left_cond. cbn [length Nat.eqb negb andb nth]. exact Hc.
Qed.

Lemma skip_spaces_fixed (str : list ascii) :
  trim_left_cond str = false -> skip_spaces str = str.
Proof.
  destruct str as [| c str']; [reflexivity |].
  unfold trim_left_cond. cbn [length Nat.eqb negb andb nth skip_spaces].
  intros ->. reflexivity.
Qed.

(** X21.  [trim_left] removes a prefix of white-space characters and
    nothing else, and what it returns is empty or begins with a character
    that is not white space (the loop has ended); applied again it changes
    nothing. *)
Theorem trim_left_removes_leading_space :
  forall str : list ascii,
    (exists pre,
        str = pre ++ trim_left str /\ forallb isspace pre = true) /\
    trim_left_cond (trim_left str) = false /\
    trim_left (trim_left str) = trim_left str.
Proof.
  intros str. rewrite !trim_left_skip_spaces.
  split; [apply skip_spaces_decompose | split].
  - apply skip_spaces_head.
  - apply skip_spaces_fixed. apply skip_spaces_head.
Qed.

Lemma trim_right_cond_rev (str : list ascii) :
  trim_right_cond str = trim_left_cond (rev str).
Proof.
  destruct (list_last_case str) as [-> | (l & c & ->)]; [reflexivity |].
  unfold trim_right_cond, trim_left_cond.
  rewrite nth_last, rev_unit, length_app. cbn [length nth].
  replace (length l + 1 =? 0)%nat with false
    by (symmetry; apply Nat.eqb_neq; lia).
  reflexivity.
Qed.

Lemma forallb_rev {A : Type} (f : A -> bool) (l : list A) :
  forallb f (rev l) = forallb f l.
Proof.
  induction l as [| a l IH]; [reflexivity |].
  cbn [rev forallb]. rewrite forallb_app, IH. cbn [forallb].
  rewrite andb_true_r. apply andb_comm.
Qed.

(** X22.  [trim_right] removes a suffix of white-space characters and
    nothing else, and what it returns is empty or ends with a character
    that is not white space; applied again it changes nothing. *)
Theorem trim_right_removes_trailing_space :
  forall str : list ascii,
    (exists post,
        str = trim_right str ++ post /\ forallb isspace post = true) /\
    trim_right_cond (trim_right str) = false /\
    trim_right (trim_right str) = trim_right str.
Proof.
  intros str. rewrite !trim_right_skip_spaces.
  split; [| split].
  - destruct (skip_spaces_decompose (rev str)) as (pre & Heq & Hpre).
    exists (rev pre). split.
    + rewrite <- rev_app_distr, <- Heq, rev_involutive. reflexivity.
    + rewrite forallb_rev. exact Hpre.
  - rewrite trim_right_cond_rev, rev_involutive. apply skip_spaces_head.
  - rewrite rev_involutive.
    rewrite (skip_spaces_fixed _ (skip_spaces_head (rev str))).
    reflexivity.
Qed.

Lemma trim_skip_spaces (str : list ascii) :
  trim str = skip_spaces (rev (skip_spaces (rev str))).
Proof.
  unfold trim. destruct str as [| c str']; [reflexivity |].
  cbn [length Nat.eqb].
  rewrite trim_left_skip_spaces, trim_right_skip_spaces. reflexivity.
Qed.

Lemma trim_right_cond_suffix (pre str : list ascii) :
  trim_right_cond (pre ++ str) = false -> trim_right_cond str = false.
Proof.
  destruct (list_last_case str) as [-> | (l & c & ->)]; [reflexivity |].
  rewrite app_assoc. unfold trim_right_cond.
  rewrite !nth_last.
  replace (length ((pre ++ l) ++ [c]) =? 0)%nat with false
    by (symmetry; apply Nat.eqb_neq; rewrite length_app; simpl; lia).
  replace (length (l ++ [c]) =? 0)%nat with false
    by (symmetry; apply Nat.eqb_neq; rewrite length_app; simpl; lia).
  trivial.
Qed.

Lemma skip_spaces_all (str : list ascii) :
  forallb isspace str = true -> skip_spaces str = [].
Proof.
  induction str as [| c str' IH]; [reflexivity |].
  cbn [forallb skip_spaces]. intros H.
  apply andb_true_iff in H. destruct H as [-> H]. apply IH. exact H.
Qed.

Lemma trim_ends (str : list ascii) :
  trim_left_cond (trim str) = false /\ trim_right_cond (trim str) = false.
Proof.
  rewrite trim_skip_spaces. split; [apply skip_spaces_head |].
  destruct (skip_spaces_decompose (rev (skip_spaces (rev str))))
    as (pre & Heq & _).
  apply (trim_right_cond_suffix pre). rewrite <- Heq.
  rewrite trim_right_cond_rev, rev_involutive. apply skip_spaces_head.
Qed.

Lemma trim_decompose (str : list ascii) :
  exists pre post,
    str = pre ++ trim str ++ post /\
    forallb isspace pre = true /\ forallb isspace post = true.
Proof.
  rewrite trim_skip_spaces.
  destruct (skip_spaces_decompose (rev str)) as (post & Hpost & Hsp).
  destruct (skip_spaces_decompose (rev (skip_spaces (rev str))))
    as (pre & Hpre & Hsp').
  exists pre, (rev post). repeat split.
  - rewrite <- (rev_involutive str) at 1. rewrite Hpost at 1.
    rewrite rev_app_distr, Hpre at 1.
    rewrite app_assoc. reflexivity.
  - exact Hsp'.
  - rewrite forallb_rev. exact Hsp.
Qed.

Lemma trim_idempotent (str : list ascii) : trim (trim str) = trim str.
Proof.
  destruct (trim_ends str) as [Hleft Hright].
  rewrite (trim_skip_spaces (trim str)).
  rewrite trim_right_cond_rev in Hright.
  rewrite (skip_spaces_fixed _ Hright), rev_involutive.
  apply skip_spaces_fixed. exact Hleft.
Qed.

Lemma trim_white_space (str : list ascii) :
  forallb isspace str = true -> trim str = [].
Proof.
  intros Hall. rewrite trim_skip_spaces.
  rewrite (skip_spaces_all (rev str))
    by (rewrite forallb_rev; exact Hall).
  reflexivity.
Qed.

(** X23.  [trim] removes a prefix and a suffix of white-space characters
    and nothing else; what it returns neither begins nor ends with white
    space; a string that is already trimmed is returned as it is, and a
    string of white space only (the empty string too) becomes empty. *)
Theorem trim_removes_surrounding_space :
  forall str : list ascii,
    (exists pre post,
        str = pre ++ trim str ++ post /\
        forallb isspace pre = true /\ forallb isspace post = true) /\
    trim_left_cond (trim str) = false /\
    trim_right_cond (trim str) = false /\
    trim (trim str) = trim str /\
    (forallb isspace str = true -> trim str = []).
Proof.
  intros str.
  destruct (trim_ends str) as [Hleft Hright].
  split; [apply trim_decompose |].
  split; [exact Hleft |].
  split; [exact Hright |].
  split; [apply trim_idempotent | apply trim_white_space].
Qed.

(** ** string_utilities: removing all white space *)

Lemma size_t_dec_inc (a : N) :
  (a < size_t_modulus)%N -> size_t_add (size_t_sub a 1) 1 = a.
Proof.
  intros Ha. unfold size_t_add, size_t_sub.
  assert (Hpos : (0 < size_t_modulus)%N) by reflexivity.
  rewrite N.Div0.add_mod_idemp_l.
  replace (a + size_t_modulus - 1 + 1)%N with (a + 1 * size_t_modulus)%N
    by lia.
  rewrite N.Div0.mod_add. apply N.mod_small. exact Ha.
Qed.

Lemma size_t_inc (i : nat) :
  (N.of_nat (S i) < size_t_modulus)%N ->
  size_t_add (N.of_nat i) 1 = N.of_nat (S i).
Proof.
  intros Hi. unfold size_t_add.
  replace (N.of_nat i + 1)%N with (N.of_nat (S i)) by lia.
  apply N.mod_small. exact Hi.
Qed.

Lemma skipn_nth_cons {A : Type} (i : nat) (l : list A) (d : A) :
  (i < length l)%nat -> skipn i l = nth i l d :: skipn (S i) l.
Proof.
  revert i. induction l as [| a l IH]; intros [| i] Hi; simpl in *;
    try lia; auto.
  apply IH. lia.
Qed.

Lemma firstn_S_nth {A : Type} (i : nat) (l : list A) (d : A) :
  (i < length l)%nat -> firstn (S i) l = firstn i l ++ [nth i l d].
Proof.
  revert i. induction l as [| a l IH]; intros [| i] Hi; simpl in *;
    try lia; auto.
  f_equal. apply IH. lia.
Qed.

Lemma erase_one (i : nat) (str : list ascii) :
  (i < length str)%nat ->
  length (erase i 1 str) = (length str - 1)%nat /\
  firstn i (erase i 1 str) = firstn i str /\
  skipn i (erase i 1 str) = skipn (S i) str.
Proof.
  intros Hi. unfold erase.
  assert (Hf : length (firstn i str) = i)
    by (rewrite length_firstn; lia).
  replace (i + 1)%nat with (S i) by lia.
  repeat split.
  - rewrite length_app, Hf, length_skipn. lia.
  - rewrite firstn_app, Hf, Nat.sub_diag, firstn_firstn, Nat.min_id.
    cbn [firstn]. apply app_nil_r.
  - rewrite skipn_app, Hf, Nat.sub_diag.
    rewrite skipn_all2 by lia. reflexivity.
Qed.

Lemma trim_all_space_loop (fuel i : nat) (str : list ascii) :
  (length str - i <= fuel)%nat ->
  (i <= length str)%nat ->
  (N.of_nat (length str) < size_t_modulus)%N ->
  let st := while_loop fuel trim_all_space_cond trim_all_space_body
              (N.of_nat i, str) in
  snd st = firstn i str ++ filter (fun c => negb (isspace c)) (skipn i str)
  /\ trim_all_space_cond st = false.
Proof.
  revert i str. induction fuel as [| fuel IH]; intros i str Hfuel Hi Hsize.
  - assert (i = length str) by lia. subst i. cbn [while_loop].
    cbv zeta. unfold trim_all_space_cond. cbn [fst snd].
    rewrite skipn_all, firstn_all, app_nil_r.
    split; [reflexivity | apply N.ltb_irrefl].
  - cbn [while_loop]. cbv zeta.
    destruct (trim_all_space_cond (N.of_nat i, str)) eqn:Hcond;
      unfold trim_all_space_cond in Hcond; cbn [fst snd] in Hcond.
    + apply N.ltb_lt in Hcond.
      assert (Hi' : (i < length str)%nat) by lia.
      assert (Hbody :
        trim_all_space_body (N.of_nat i, str)
        = if isspace (nth i str nul)
          then (N.of_nat i, erase i 1 str)
          else (N.of_nat (S i), str)).
      { unfold trim_all_space_body. rewrite Nat2N.id.
        destruct (isspace (nth i str nul)).
        - rewrite size_t_dec_inc by lia. reflexivity.
        - rewrite size_t_inc by lia. reflexivity. }
      rewrite Hbody.
      rewrite (skipn_nth_cons i str nul Hi'). cbn [filter].
      destruct (isspace (nth i str nul)) eqn:Hc; cbn [negb].
      * destruct (erase_one i str Hi') as (Hlen & Hfirst & Hskip).
        specialize (IH i (erase i 1 str)).
        cbv zeta in IH. rewrite Hfirst, Hskip, Hlen in IH.
        apply IH; lia.
      * specialize (IH (S i) str). cbv zeta in IH.
        rewrite (firstn_S_nth i str nul Hi'), <- app_assoc in IH.
        apply IH; lia.
    + apply N.ltb_ge in Hcond.
      assert (i = length str) by lia. subst i.
      rewrite skipn_all, firstn_all, app_nil_r.
      split; [reflexivity |].
      unfold trim_all_space_cond. cbn [fst snd]. apply N.ltb_irrefl.
Qed.

(** X24.  For a string of fewer than 2^64 characters, [trim_all_space]
    returns the characters of the string that are not white space, in their
    order, and its loop has ended within as many passes as the string has
    characters. *)
Theorem trim_all_space_filters :
  forall str : list ascii,
    (N.of_nat (length str) < size_t_modulus)%N ->
    trim_all_space str = filter (fun c => negb (isspace c)) str /\
    trim_all_space_cond
      (while_loop (length str) trim_all_space_cond trim_all_space_body
         (0%N, str)) = false.
Proof.
  intros str Hsize.
  destruct (trim_all_space_loop (length str) 0 str) as [Hres Hend];
    [lia | lia | exact Hsize |].
  split; [exact Hres | exact Hend].
Qed.

Lemma trim_all_space_filters_witness :
  trim_all_space [" "; "a"; " "; "b"; " "]%char = ["a"; "b"]%char.
Proof.
  exact (proj1 (trim_all_space_filters [" "; "a"; " "; "b"; " "]%char
                  eq_refl)).
Defined.

(** ** string_utilities: case conversion and [is_number] *)

Lemma store_middle {A : Type} (l1 l2 : list A) (c v : A) (k : nat) :
  length l1 = k -> store k v (l1 ++ c :: l2) = l1 ++ v :: l2.
Proof.
  revert k. induction l1 as [| a l1 IH]; intros k Hk; subst k.
  - reflexivity.
  - cbn [length app store]. f_equal. apply IH. reflexivity.
Qed.

Lemma map_in_place (f : ascii -> ascii) (str : list ascii) (k : nat) :
  (k <= length str)%nat ->
  for_loop k (fun i s => store i (f (nth i s nul)) s) str
  = map f (firstn k str) ++ skipn k str.
Proof.
  induction k as [| k IH]; intros Hk.
  - reflexivity.
  - rewrite for_loop_S, IH by lia.
    assert (Hk' : (k < length str)%nat) by lia.
    assert (Hlen : length (map f (firstn k str)) = k)
      by (rewrite length_map, length_firstn; lia).
    rewrite (skipn_nth_cons k str nul Hk').
    rewrite app_nth2 by lia. rewrite Hlen, Nat.sub_diag. cbn [nth].
    rewrite store_middle by exact Hlen.
    rewrite (firstn_S_nth k str nul Hk'), map_app, <- app_assoc.
    reflexivity.
Qed.

Lemma to_upper_map (str : list ascii) : to_upper str = map toupper str.
Proof.
  unfold to_upper. rewrite map_in_place by apply le_n.
  rewrite firstn_all, skipn_all. apply app_nil_r.
Qed.

Lemma to_lower_map (str : list ascii) : to_lower str = map tolower str.
Proof.
  unfold to_lower. rewrite map_in_place by apply le_n.
  rewrite firstn_all, skipn_all. apply app_nil_r.
Qed.

Lemma toupper_tolower_char (c : ascii) :
  toupper (toupper c) = toupper c /\
  tolower (tolower c) = tolower c /\
  toupper (tolower c) = toupper c /\
  tolower (toupper c) = tolower c /\
  isspace (toupper c) = isspace c /\
  isspace (tolower c) = isspace c.
Proof.
  destruct c as [[] [] [] [] [] [] [] []]; vm_compute; repeat split.
Qed.

(** X25.  [to_upper] and [to_lower] replace every character by its upper,
    respectively lower, case and keep the length; either one applied twice
    is the same as once, and the one applied after the other is the same
    as applied alone. *)
Theorem to_upper_to_lower_map :
  forall str : list ascii,
    to_upper str = map toupper str /\
    to_lower str = map tolower str /\
    length (to_upper str) = length str /\
    length (to_lower str) = length str /\
    to_upper (to_upper str) = to_upper str /\
    to_lower (to_lower str) = to_lower str /\
    to_upper (to_lower str) = to_upper str /\
    to_lower (to_upper str) = to_lower str.
Proof.
  intros str. rewrite !to_upper_map, !to_lower_map, ?to_upper_map.
  rewrite !length_map, !map_map.
  repeat split; apply map_ext; intros c;
    destruct (toupper_tolower_char c) as (H1 & H2 & H3 & H4 & _);
    assumption.
Qed.

Lemma find_first_not_of_from_forallb (chars str : list ascii) (pos : nat) :
  match find_first_not_of_from chars str pos with
  | None => true
  | Some _ => false
  end
  = forallb (fun c => existsb (eqb c) chars) str.
Proof.
  revert pos. induction str as [| c str' IH]; intros pos.
  - reflexivity.
  - cbn [find_first_not_of_from forallb].
    destruct (existsb (eqb c) chars); [apply IH | reflexivity].
Qed.

(** X26.  [is_number] is true exactly when every character of the string
    is one of [+-.0123456789Ee]; it looks at nothing else, so the empty
    string is a number, and a concatenation is a number exactly when both
    parts are. *)
Theorem is_number_checks_characters_only :
  forall str str' : list ascii,
    is_number str = forallb number_char str /\
    is_number [] = true /\
    is_number (str ++ str') = is_number str && is_number str'.
Proof.
  assert (H : forall s, is_number s = forallb number_char s).
  { intros s. unfold is_number, find_first_not_of.
    apply find_first_not_of_from_forallb. }
  intros str str'. rewrite !H. repeat split.
  apply forallb_app.
Qed.

(** ** string_utilities: [split] *)

Lemma find_from_shift (d : ascii) (str : list ascii) (pos : nat) :
  find_from d str pos
  = match find_from d str 0 with
    | Some i => Some (pos + i)%nat
    | None => None
    end.
Proof.
  revert pos. induction str as [| c str' IH]; intros pos.
  - reflexivity.
  - cbn [find_from]. destruct (eqb c d).
    + rewrite Nat.add_0_r. reflexivity.
    + rewrite (IH (S pos)), (IH 1%nat).
      destruct (find_from d str' 0); [| reflexivity].
      f_equal. lia.
Qed.

Lemma find_cons (d c : ascii) (str : list ascii) :
  find d (c :: str)
  = if eqb c d then Some 0%nat else option_map S (find d str).
Proof.
  unfold find. cbn [find_from]. destruct (eqb c d); [reflexivity |].
  rewrite find_from_shift. destruct (find_from d str 0); reflexivity.
Qed.

Lemma pieces_not_nil (d : ascii) (str : list ascii) : pieces d str <> [].
Proof.
  destruct str as [| c str']; cbn [pieces]; [discriminate |].
  destruct (eqb c d); [discriminate |].
  destruct (pieces d str'); discriminate.
Qed.

Lemma pieces_find (d : ascii) (str : list ascii) :
  match find d str with
  | Some index =>
      (index < length str)%nat /\
      pieces d str = firstn index str :: pieces d (skipn (S index) str)
  | None => pieces d str = [str]
  end.
Proof.
  induction str as [| c str' IH].
  - reflexivity.
  - rewrite find_cons. cbn [pieces]. destruct (eqb c d).
    + split; [simpl; lia | reflexivity].
    + destruct (find d str') as [index |]; cbn [option_map].
      * destruct IH as [Hlt ->]. split; [simpl; lia | reflexivity].
      * rewrite IH. reflexivity.
Qed.

Lemma pieces_without_delimiter (d : ascii) (str p : list ascii) :
  In p (pieces d str) -> ~ In d p.
Proof.
  revert p. induction str as [| c str' IH]; intros p.
  - cbn [pieces In]. intros [<- | []]. intros [].
  - cbn [pieces]. destruct (eqb c d) eqn:Hc.
    + intros [<- | Hin]; [intros [] | apply IH; exact Hin].
    + apply eqb_neq in Hc.
      destruct (pieces d str') as [| piece rest] eqn:Hp.
      * exfalso. exact (pieces_not_nil d str' Hp).
      * intros [<- | Hin].
        -- intros [Heq | Hd]; [congruence |].
           exact (IH piece (or_introl eq_refl) Hd).
        -- apply IH. right. exact Hin.
Qed.

Lemma join_pieces (d : ascii) (str : list ascii) :
  join d (pieces d str) = str.
Proof.
  induction str as [| c str' IH].
  - reflexivity.
  - cbn [pieces]. destruct (eqb c d) eqn:Hc.
    + apply eqb_eq in Hc. subst c.
      destruct (pieces d str') as [| piece rest] eqn:Hp.
      * exfalso. exact (pieces_not_nil d str' Hp).
      * cbn [join app]. cbn [join] in IH. rewrite IH. reflexivity.
    + destruct (pieces d str') as [| piece rest] eqn:Hp.
      * exfalso. exact (pieces_not_nil d str' Hp).
      * destruct rest as [| r rs].
        -- cbn [join] in *. rewrite IH. reflexivity.
        -- cbn [join] in *. cbn [app]. rewrite IH. reflexivity.
Qed.

Lemma split_loop (d : ascii) (fuel : nat) (str : list ascii)
  (str_array : list (list ascii)) :
  (length str <= fuel)%nat ->
  exists rest,
    while_loop fuel split_cond (split_body d) (str, find d str, str_array)
    = (rest, None,
       str_array
       ++ filter nonempty (map trim (removelast (pieces d str)))) /\
    last (pieces d str) [] = rest.
Proof.
  revert str str_array.
  induction fuel as [| fuel IH]; intros str str_array Hlen.
  - destruct str; [| simpl in Hlen; lia].
    exists []. split; [| reflexivity].
    cbn. rewrite app_nil_r. reflexivity.
  - cbn [while_loop]. unfold split_cond at 1. cbn [fst snd].
    pose proof (pieces_find d str) as Hfind.
    destruct (find d str) as [index |] eqn:Hidx.
    + destruct Hfind as [Hlt Hp].
      unfold split_body at 2.
      assert (Herase : erase 0 (index + 1) str = skipn (S index) str).
      { unfold erase. cbn [firstn app]. f_equal. lia. }
      rewrite Herase.
      destruct (IH (skipn (S index) str)
                  (if (0 <? length (trim (firstn index str)))%nat
                   then str_array ++ [trim (firstn index str)]
                   else str_array))
        as (rest & Hloop & Hlast).
      { rewrite length_skipn. lia. }
      exists rest. rewrite Hloop, Hp. split.
      * f_equal.
        pose proof (pieces_not_nil d (skipn (S index) str)) as Hnn.
        destruct (pieces d (skipn (S index) str)) as [| q qs] eqn:Hq;
          [contradiction |].
        cbn [removelast map filter].
        change (nonempty (trim (firstn index str)))
          with (0 <? length (trim (firstn index str)))%nat.
        destruct (0 <? length (trim (firstn index str)))%nat;
          [rewrite <- app_assoc |]; reflexivity.
      * pose proof (pieces_not_nil d (skipn (S index) str)) as Hnn.
        destruct (pieces d (skipn (S index) str)) as [| q qs] eqn:Hq;
          [contradiction |].
        exact Hlast.
    + exists str. rewrite Hfind. cbn. rewrite app_nil_r.
      split; reflexivity.
Qed.

Lemma filter_removelast_last (ps : list (list ascii)) :
  ps <> [] ->
  filter nonempty (map trim (removelast ps))
  ++ (if (0 <? length (last ps []))%nat
      then if (0 <? length (trim (last ps [])))%nat
           then [trim (last ps [])] else []
      else [])
  = filter nonempty (map trim ps).
Proof.
  intros Hne.
  replace (map trim ps) with (map trim (removelast ps ++ [last ps []]))
    by (rewrite <- (app_removelast_last [] Hne); reflexivity).
  rewrite map_app, filter_app. f_equal.
  cbn [map filter]. unfold nonempty.
  destruct (last ps []) as [| c l] eqn:Hl; [reflexivity |].
  cbn [length Nat.ltb Nat.leb].
  destruct (0 <? length (trim (c :: l)))%nat; reflexivity.
Qed.

Lemma split_filter_pieces (str : list ascii) (d : ascii) :
  split str d = filter nonempty (map trim (pieces d (trim str))) /\
  split_cond
    (while_loop (length (trim str)) split_cond (split_body d)
       (trim str, find d (trim str), [])) = false.
Proof.
  destruct (split_loop d (length (trim str)) (trim str) [] (le_n _))
    as (rest & Hloop & Hlast).
  split; [| rewrite Hloop; reflexivity].
  unfold split. cbv zeta.
  rewrite Hloop. cbn [app].
  rewrite <- (filter_removelast_last _ (pieces_not_nil d (trim str))).
  rewrite Hlast.
  destruct (0 <? length rest)%nat.
  - destruct (0 <? length (trim rest))%nat;
      rewrite ?app_nil_r; reflexivity.
  - rewrite app_nil_r. reflexivity.
Qed.

(** X27.  [split(str, d)] is: trim the string, cut it at every occurrence
    of [d], trim each piece, and keep the pieces that are not empty, in
    their order.  The cut pieces contain no [d] and, put together again
    with [d] between them, give the trimmed string back.  The loop has
    ended within as many passes as the trimmed string has characters. *)
Theorem split_pieces :
  forall (str : list ascii) (d : ascii),
    split str d = filter nonempty (map trim (pieces d (trim str))) /\
    join d (pieces d (trim str)) = trim str /\
    (forall p, In p (pieces d (trim str)) -> ~ In d p) /\
    split_cond
      (while_loop (length (trim str)) split_cond (split_body d)
         (trim str, find d (trim str), [])) = false.
Proof.
  intros str d.
  destruct (split_filter_pieces str d) as [Heq Hend].
  split; [exact Heq |].
  split; [apply join_pieces |].
  split; [apply pieces_without_delimiter | exact Hend].
Qed.

Lemma in_trim (c : ascii) (str : list ascii) :
  In c (trim str) -> In c str.
Proof.
  destruct (trim_decompose str) as (pre & post & Heq & _).
  intros Hin. rewrite Heq. apply in_or_app. right.
  apply in_or_app. left. exact Hin.
Qed.

(** X28.  Every string that [split(str, d)] returns is non-empty, does
    not contain [d], and neither begins nor ends with white space. *)
Theorem split_elements :
  forall (str : list ascii) (d : ascii) (piece : list ascii),
    In piece (split str d) ->
    piece <> [] /\
    ~ In d piece /\
    trim_left_cond piece = false /\
    trim_right_cond piece = false /\
    trim piece = piece.
Proof.
  intros str d piece Hin.
  rewrite (proj1 (split_filter_pieces str d)) in Hin.
  apply filter_In in Hin. destruct Hin as [Hin Hne].
  apply in_map_iff in Hin. destruct Hin as (p & <- & Hp).
  destruct (trim_ends p) as [Hl Hr].
  repeat split; try assumption.
  - intros Hnil. rewrite Hnil in Hne. discriminate.
  - intros Hd. apply in_trim in Hd.
    exact (pieces_without_delimiter d (trim str) p Hp Hd).
  - apply trim_idempotent.
Qed.

Lemma split_elements_witness :
  trim ["b"]%char = ["b"]%char.
Proof.
  exact (proj2 (proj2 (proj2 (proj2
           (split_elements [" "; "a"; ","; " "; "b"; " "]%char ","%char
              ["b"]%char (or_intror (or_introl eq_refl))))))).
Defined.

(** X29.  [split] of a string of white space only, the empty string
    included, is the empty vector; and when the trimmed string is not empty
    and does not contain [d], [split] returns that one string. *)
Theorem split_edge_cases :
  forall (str : list ascii) (d : ascii),
    (forallb isspace str = true -> split str d = []) /\
    (trim str <> [] -> find d (trim str) = None ->
     split str d = [trim str]).
Proof.
  intros str d. rewrite (proj1 (split_filter_pieces str d)). split.
  - intros Hall. rewrite (trim_white_space str Hall). reflexivity.
  - intros Hne Hnone.
    pose proof (pieces_find d (trim str)) as Hp. rewrite Hnone in Hp.
    rewrite Hp. cbn [map filter].
    rewrite trim_idempotent.
    unfold nonempty.
    destruct (trim str); [contradiction | reflexivity].
Qed.

Lemma split_edge_cases_witness :
  split [" "; "a"; "b"; " "]%char ","%char = [["a"; "b"]%char].
Proof.
  apply (proj2 (split_edge_cases [" "; "a"; "b"; " "]%char ","%char)).
  - discriminate.
  - reflexivity.
Defined.
